(** * secureStorage: password-derived encryption of the locally persisted
    application state, and the one-way migration from the legacy XOR cipher.

    The development embeds [services/secureStorage.ts] (and the copy of it
    bundled in [index.tsx]).  JavaScript strings are lists of UTF-16 code
    units, byte buffers are lists of integers with the [Uint8Array]
    wrap-around written out, the IndexedDB object store and [localStorage]
    are finite maps, and the two module-level variables [masterCryptoKey]
    and [masterPasswordForMigration] are fields of the state that every
    operation threads.

    Functions of the host platform are of two kinds.  The text codecs
    ([btoa], [atob], [escape], [decodeURIComponent], [TextEncoder],
    [TextDecoder]) are deterministic and small: they are written out below
    after their standards.  PBKDF2, AES-GCM, [JSON.parse], [JSON.stringify]
    and the random generator are fields of the class [Platform]; their laws,
    where a statement needs one, are explicit hypotheses.

    What is left out: the calls of the logger; the opening of the database
    (the object store is taken to be open, and reading it does not fail,
    while a [put] request may be rejected); the helper [utf16ToBinary],
    which [legacyDecrypt] defines and never calls.

    Two neighbours of the module are embedded as well: the vector store
    that the module keeps in the same database ([saveVectorChunks],
    [getVectorChunksByCharacter], [deleteVectorChunksBySource]), as a
    finite map from chunk ids to chunks, and [chunkText] of the RAG
    service, which cuts a document into the chunks that are stored
    there. *)

From Stdlib Require Import ZArith List Lia String Ascii DecimalString.
From stdpp Require Import base option list gmap strings.

Set Warnings "-register-all".
Local Open Scope Z_scope.

(** ** JavaScript strings and byte buffers *)

(** A JavaScript string: its UTF-16 code units, each in [0, 65535]. *)
Abbreviation jsstring := (list Z) (only parsing).
(** The contents of an [ArrayBuffer]: octets, each in [0, 255]. *)
Abbreviation bytes := (list Z) (only parsing).

Definition is_byte (b : Z) : Prop := 0 <= b < 256.
Definition is_code_unit (c : Z) : Prop := 0 <= c < 65536.

(** A string literal of the source (ASCII only). *)
Fixpoint str (s : string) : jsstring :=
  match s with
  | EmptyString => []
  | String a r => Z.of_N (N_of_ascii a) :: str r
  end.

(** [new Uint8Array(buffer)]: every element read back is an octet. *)
Definition Uint8Array (buffer : bytes) : bytes := map (fun b => b mod 256) buffer.

(** [String.fromCharCode(n)] applies ToUint16. *)
Definition fromCharCode (n : Z) : Z := n mod 65536.

(** ** Base64: [window.btoa] and [window.atob] *)

Definition enc6 (n : Z) : Z :=
  if n <? 26 then 65 + n
  else if n <? 52 then 97 + (n - 26)
  else if n <? 62 then 48 + (n - 52)
  else if n =? 62 then 43
  else 47.

Definition dec6 (c : Z) : option Z :=
  if (65 <=? c) && (c <=? 90) then Some (c - 65)
  else if (97 <=? c) && (c <=? 122) then Some (c - 71)
  else if (48 <=? c) && (c <=? 57) then Some (c + 4)
  else if c =? 43 then Some 62
  else if c =? 47 then Some 63
  else None.

(** RFC 4648 encoding with padding, three octets at a time. *)
Fixpoint b64_encode (l : bytes) : jsstring :=
  match l with
  | [] => []
  | [a] => [enc6 (a / 4); enc6 ((a mod 4) * 16); 61; 61]
  | [a; b] => [enc6 (a / 4); enc6 ((a mod 4) * 16 + b / 16); enc6 ((b mod 16) * 4); 61]
  | a :: b :: c :: r =>
      enc6 (a / 4) :: enc6 ((a mod 4) * 16 + b / 16)
        :: enc6 ((b mod 16) * 4 + c / 64) :: enc6 (c mod 64) :: b64_encode r
  end.

(** [btoa] throws InvalidCharacterError ([None]) on a code unit above 255. *)
Definition btoa (binary : jsstring) : option jsstring :=
  if forallb (fun c => (0 <=? c) && (c <? 256)) binary
  then Some (b64_encode binary) else None.

Definition is_ascii_whitespace (c : Z) : bool :=
  (c =? 9) || (c =? 10) || (c =? 12) || (c =? 13) || (c =? 32).

(** Drops one or two trailing [=] signs. *)
Fixpoint remove_trailing_eq (s : jsstring) : jsstring :=
  match s with
  | [] => []
  | [c] => if c =? 61 then [] else [c]
  | [c; d] => if d =? 61 then (if c =? 61 then [] else [c]) else [c; d]
  | c :: ((_ :: _ :: _) as r) => c :: remove_trailing_eq r
  end.

Definition strip_padding (s : jsstring) : jsstring :=
  if Z.of_nat (length s) mod 4 =? 0 then remove_trailing_eq s else s.

(** Four sextets give three octets; a lone trailing character, or a
    character outside the alphabet, is a failure. *)
Fixpoint b64_decode_groups (s : jsstring) : option bytes :=
  match s with
  | [] => Some []
  | [_] => None
  | [a; b] =>
      x ← dec6 a; y ← dec6 b; Some [x * 4 + y / 16]
  | [a; b; c] =>
      x ← dec6 a; y ← dec6 b; z ← dec6 c;
      Some [x * 4 + y / 16; (y mod 16) * 16 + z / 4]
  | a :: b :: c :: d :: r =>
      x ← dec6 a; y ← dec6 b; z ← dec6 c; u ← dec6 d;
      rest ← b64_decode_groups r;
      Some (x * 4 + y / 16 :: (y mod 16) * 16 + z / 4 :: (z mod 4) * 64 + u :: rest)
  end.

(** [atob]: the forgiving-base64 decode of the HTML standard.  [None] is
    the InvalidCharacterError it throws. *)
Definition atob (data : jsstring) : option jsstring :=
  b64_decode_groups
    (strip_padding (filter (fun c => is_ascii_whitespace c = false) data)).

(** ** UTF-8: [TextEncoder] and [TextDecoder] *)

Definition is_high_surrogate (c : Z) : bool := (0xD800 <=? c) && (c <=? 0xDBFF).
Definition is_low_surrogate (c : Z) : bool := (0xDC00 <=? c) && (c <=? 0xDFFF).

(** The code points of a string; a surrogate that is not part of a pair
    is replaced by U+FFFD (conversion to a USVString). *)
Fixpoint utf16_to_scalars (s : jsstring) : list Z :=
  match s with
  | [] => []
  | c :: r =>
      if is_high_surrogate c then
        match r with
        | d :: r' =>
            if is_low_surrogate d
            then 0x10000 + (c - 0xD800) * 0x400 + (d - 0xDC00) :: utf16_to_scalars r'
            else 0xFFFD :: utf16_to_scalars r
        | [] => [0xFFFD]
        end
      else if is_low_surrogate c then 0xFFFD :: utf16_to_scalars r
      else c :: utf16_to_scalars r
  end.

Definition utf8_encode_cp (cp : Z) : bytes :=
  if cp <? 0x80 then [cp]
  else if cp <? 0x800 then [0xC0 + cp / 64; 0x80 + cp mod 64]
  else if cp <? 0x10000 then
    [0xE0 + cp / 4096; 0x80 + (cp / 64) mod 64; 0x80 + cp mod 64]
  else
    [0xF0 + cp / 262144; 0x80 + (cp / 4096) mod 64;
     0x80 + (cp / 64) mod 64; 0x80 + cp mod 64].

(** [new TextEncoder().encode(s)] *)
Definition TextEncoder_encode (s : jsstring) : bytes :=
  flat_map utf8_encode_cp (utf16_to_scalars s).

Definition utf16_encode_cp (cp : Z) : jsstring :=
  if cp <? 0x10000 then [cp]
  else [0xD800 + (cp - 0x10000) / 0x400; 0xDC00 + (cp - 0x10000) mod 0x400].

(** The state of the UTF-8 decoder of the Encoding standard inside a
    multi-byte sequence: the code point so far, the continuation bytes
    still needed, and the bounds on the next byte. *)
Record utf8_pending : Type := MkPending {
  u_cp : Z;
  u_needed : nat;
  u_lower : Z;
  u_upper : Z
}.

Inductive utf8_lead : Type :=
  | LeadEmit (c : Z)
  | LeadStart (p : utf8_pending).

Definition utf8_lead_byte (b : Z) : utf8_lead :=
  if (0 <=? b) && (b <=? 0x7F) then LeadEmit b
  else if (0xC2 <=? b) && (b <=? 0xDF) then
    LeadStart (MkPending (b mod 32) 1 0x80 0xBF)
  else if (0xE0 <=? b) && (b <=? 0xEF) then
    LeadStart (MkPending (b mod 16) 2
                 (if b =? 0xE0 then 0xA0 else 0x80)
                 (if b =? 0xED then 0x9F else 0xBF))
  else if (0xF0 <=? b) && (b <=? 0xF4) then
    LeadStart (MkPending (b mod 8) 3
                 (if b =? 0xF0 then 0x90 else 0x80)
                 (if b =? 0xF4 then 0x8F else 0xBF))
  else LeadEmit 0xFFFD.

(** The decoder with error mode "replacement": a byte that cannot
    continue the pending sequence yields U+FFFD and is then read again
    as the first byte of a sequence. *)
Fixpoint utf8_decode (st : option utf8_pending) (bs : bytes) : list Z :=
  match bs with
  | [] => match st with None => [] | Some _ => [0xFFFD] end
  | b :: r =>
      match st with
      | None =>
          match utf8_lead_byte b with
          | LeadEmit c => c :: utf8_decode None r
          | LeadStart p => utf8_decode (Some p) r
          end
      | Some p =>
          if (u_lower p <=? b) && (b <=? u_upper p) then
            let cp := u_cp p * 64 + b mod 64 in
            match u_needed p with
            | S (S n) => utf8_decode (Some (MkPending cp (S n) 0x80 0xBF)) r
            | _ => cp :: utf8_decode None r
            end
          else
            0xFFFD ::
              match utf8_lead_byte b with
              | LeadEmit c => c :: utf8_decode None r
              | LeadStart q => utf8_decode (Some q) r
              end
      end
  end.

(** [ignoreBOM] is false by default: a leading U+FEFF is not output. *)
Definition drop_bom (cps : list Z) : list Z :=
  match cps with
  | c :: r => if c =? 0xFEFF then r else cps
  | [] => []
  end.

(** [new TextDecoder().decode(buffer)] *)
Definition TextDecoder_decode (buffer : bytes) : jsstring :=
  flat_map utf16_encode_cp (drop_bom (utf8_decode None buffer)).

(** ** [escape] and [decodeURIComponent] *)

Definition is_alnum (c : Z) : bool :=
  ((65 <=? c) && (c <=? 90)) || ((97 <=? c) && (c <=? 122)) || ((48 <=? c) && (c <=? 57)).

(** The characters [escape] leaves alone: alphanumerics and [@*_+-./]. *)
Definition escape_unescaped (c : Z) : bool :=
  is_alnum c || (c =? 64) || (c =? 42) || (c =? 95) || (c =? 43)
  || (c =? 45) || (c =? 46) || (c =? 47).

Definition hex_digit (n : Z) : Z := if n <? 10 then 48 + n else 55 + n.

Definition escape_unit (c : Z) : jsstring :=
  if escape_unescaped c then [c]
  else if c <? 256 then [37; hex_digit (c / 16); hex_digit (c mod 16)]
  else [37; 117; hex_digit (c / 4096); hex_digit ((c / 256) mod 16);
        hex_digit ((c / 16) mod 16); hex_digit (c mod 16)].

Definition escape (s : jsstring) : jsstring := flat_map escape_unit s.

Definition hex_value (c : Z) : option Z :=
  if (48 <=? c) && (c <=? 57) then Some (c - 48)
  else if (65 <=? c) && (c <=? 70) then Some (c - 55)
  else if (97 <=? c) && (c <=? 102) then Some (c - 87)
  else None.

Definition ParseHexOctet (h1 h2 : Z) : option Z :=
  x ← hex_value h1; y ← hex_value h2; Some (x * 16 + y).

(** A continuation escape: [%] followed by two hexadecimal digits. *)
Definition escaped_octet (p h1 h2 : Z) : option Z :=
  if p =? 37 then ParseHexOctet h1 h2 else None.

Definition in_range (lo hi b : Z) : bool := (lo <=? b) && (b <=? hi).

(** The code point of a well-formed UTF-8 sequence of two to four octets
    (Unicode, table 3-7): no overlong form, no surrogate, nothing above
    U+10FFFF. *)
Definition utf8_code_point (octets : bytes) : option Z :=
  match octets with
  | [b0; b1] =>
      if in_range 0xC2 0xDF b0 && in_range 0x80 0xBF b1
      then Some ((b0 mod 32) * 64 + b1 mod 64) else None
  | [b0; b1; b2] =>
      if in_range 0xE0 0xEF b0
         && in_range (if b0 =? 0xE0 then 0xA0 else 0x80)
                     (if b0 =? 0xED then 0x9F else 0xBF) b1
         && in_range 0x80 0xBF b2
      then Some (((b0 mod 16) * 64 + b1 mod 64) * 64 + b2 mod 64) else None
  | [b0; b1; b2; b3] =>
      if in_range 0xF0 0xF4 b0
         && in_range (if b0 =? 0xF0 then 0x90 else 0x80)
                     (if b0 =? 0xF4 then 0x8F else 0xBF) b1
         && in_range 0x80 0xBF b2 && in_range 0x80 0xBF b3
      then Some ((((b0 mod 8) * 64 + b1 mod 64) * 64 + b2 mod 64) * 64 + b3 mod 64)
      else None
  | _ => None
  end.

(** The abstract operation Decode of ECMA-262 with an empty reserved set.
    [None] is the URIError it throws.  The number of leading one bits of
    the first octet gives the length of the sequence. *)
Fixpoint Decode (s : jsstring) : option jsstring :=
  match s with
  | [] => Some []
  | c :: r =>
      if negb (c =? 37) then cons c <$> Decode r
      else
        match r with
        | h1 :: h2 :: r1 =>
            B ← ParseHexOctet h1 h2;
            if B <? 0x80 then cons B <$> Decode r1
            else if B <? 0xC0 then None
            else if B <? 0xE0 then
              match r1 with
              | p1 :: x1 :: y1 :: r2 =>
                  B1 ← escaped_octet p1 x1 y1;
                  V ← utf8_code_point [B; B1];
                  app (utf16_encode_cp V) <$> Decode r2
              | _ => None
              end
            else if B <? 0xF0 then
              match r1 with
              | p1 :: x1 :: y1 :: p2 :: x2 :: y2 :: r2 =>
                  B1 ← escaped_octet p1 x1 y1;
                  B2 ← escaped_octet p2 x2 y2;
                  V ← utf8_code_point [B; B1; B2];
                  app (utf16_encode_cp V) <$> Decode r2
              | _ => None
              end
            else if B <? 0xF8 then
              match r1 with
              | p1 :: x1 :: y1 :: p2 :: x2 :: y2 :: p3 :: x3 :: y3 :: r2 =>
                  B1 ← escaped_octet p1 x1 y1;
                  B2 ← escaped_octet p2 x2 y2;
                  B3 ← escaped_octet p3 x3 y3;
                  V ← utf8_code_point [B; B1; B2; B3];
                  app (utf16_encode_cp V) <$> Decode r2
              | _ => None
              end
            else None
        | _ => None
        end
  end.

Definition decodeURIComponent (s : jsstring) : option jsstring := Decode s.

(** ** Exceptions and results *)

(** What a call can throw: [new Error(msg)] of the module itself, and the
    exceptions of the platform functions it calls. *)
Inductive exn : Type :=
  | Error (msg : string)
  | InvalidCharacterError   (* atob, btoa *)
  | URIError                (* decodeURIComponent *)
  | OperationError          (* crypto.subtle.decrypt *)
  | SyntaxError             (* JSON.parse *)
  | TypeError               (* a salt that is not a BufferSource *)
  | DBRequestError.         (* a rejected IndexedDB request *)

Inductive result (A : Type) : Type :=
  | Ok (a : A)
  | Throw (e : exn).
Arguments Ok {A} a.
Arguments Throw {A} e.

Definition of_option {A} (e : exn) (o : option A) : result A :=
  match o with Some a => Ok a | None => Throw e end.

(** The messages of the errors the module raises itself. *)
Definition LegacyKeyMissing : exn := Error "Legacy master key is not set for migration.".
Definition NoSessionKey : exn :=
  Error "Cannot save data: master key not available. This may happen if a legacy login occurred without a data load/migration.".
Definition DataCorrupt : exn := Error "Failed to decrypt data.".
Definition MigrationFailed : exn := Error "Failed to migrate legacy data.".
Definition NoMasterKey : exn := Error "Cannot load data: no master key available.".

(** ** The legacy XOR cipher (decrypt only) *)

(** [s.charCodeAt(i)]; out of range it is NaN, which [^] reads as 0. *)
Definition charCodeAt (s : jsstring) (i : nat) : Z := nth i s 0.

Definition legacySimpleXOR (data key : jsstring) : jsstring :=
  imap (fun i c => fromCharCode (Z.lxor c (charCodeAt key (i mod length key)%nat))) data.

(** [decodeURIComponent(escape(binary))] *)
Definition binaryToUtf16 (binary : jsstring) : option jsstring :=
  decodeURIComponent (escape binary).

Definition legacyDecrypt (encryptedData masterKey : jsstring) : result jsstring :=
  match masterKey with
  | [] => Throw LegacyKeyMissing
  | _ :: _ =>
      match atob encryptedData with
      | None => Throw InvalidCharacterError
      | Some binaryString =>
          match binaryToUtf16 binaryString with
          | None => Throw URIError
          | Some xorResult => Ok (legacySimpleXOR xorResult masterKey)
          end
      end
  end.

(** ** Application data and stored values *)

(** What [JSON.parse] returns.  The module never inspects number payloads. *)
Inductive json : Type :=
  | JNull
  | JBool (b : bool)
  | JNumber (n : Z)
  | JString (s : jsstring)
  | JArray (items : list json)
  | JObject (fields : list (string * json)).

Definition json_field (name : string) (j : json) : option json :=
  match j with
  | JObject fields => snd <$> List.find (fun kv => bool_decide (fst kv = name)) fields
  | _ => None
  end.

(** The two built-in characters of the first copy of the module.  Only the
    short fields are kept; the prose fields (personality, firstMessage,
    avatarUrl, ...) play no part here. *)
Definition zombieApocChar : json :=
  JObject [("id", JString (str "default-zombie-apocalypse"));
           ("name", JString (str "Zombie Apocalypse"));
           ("description", JString (str "A zombie apocalypse game scenario."))]%string.

Definition amyChar : json :=
  JObject [("id", JString (str "default-amy-aime"));
           ("name", JString (str "Amy"))]%string.

(** [{ characters: ..., chatSessions: [], plugins: [], lorebooks: [] }] *)
Definition defaultStructure (characters : list json) : json :=
  JObject [("characters", JArray characters);
           ("chatSessions", JArray []);
           ("plugins", JArray []);
           ("lorebooks", JArray [])]%string.

(** A value of type [any] read from or written to the object store:
    [undefined] for a missing record, a [Uint8Array] (the salt) or a
    string (verifier, data blob, values relocated from localStorage). *)
Inductive jsval : Type :=
  | Undefined
  | VBytes (b : bytes)
  | VString (s : jsstring).

(** JavaScript truthiness: [undefined] and the empty string are falsy. *)
Definition truthy (v : jsval) : bool :=
  match v with
  | Undefined => false
  | VBytes _ => true
  | VString [] => false
  | VString (_ :: _) => true
  end.

Definition decimal (n : Z) : jsstring :=
  str (NilZero.string_of_uint (N.to_uint (Z.to_N n))).

Fixpoint join_comma (l : list jsstring) : jsstring :=
  match l with
  | [] => []
  | [x] => x
  | x :: r => x ++ 44 :: join_comma r
  end.

(** The string a value is coerced to where a string is expected. *)
Definition ToString (v : jsval) : jsstring :=
  match v with
  | Undefined => str "undefined"
  | VBytes b => join_comma (map decimal b)
  | VString s => s
  end.

Definition STORAGE_KEY_DATA : string := "ai-nexus-data".
Definition STORAGE_KEY_SALT : string := "ai-nexus-salt".
Definition STORAGE_KEY_PASS_VERIFIER : string := "ai-nexus-pass-verifier".

(** ** The platform *)

(** The Web Crypto primitives, JSON and the random generator.  [PBKDF2]
    stands for [importKey] followed by [deriveKey] with 100000 iterations of
    SHA-256 and a 256-bit AES-GCM key; its arguments are the UTF-8 password
    and the salt.  [AES_GCM_encrypt key iv plaintext] returns ciphertext
    and tag; [AES_GCM_decrypt] is [None] when the operation is rejected. *)
Class Platform : Type := {
  CryptoKey : Type;
  PBKDF2 : bytes -> bytes -> CryptoKey;
  AES_GCM_encrypt : CryptoKey -> bytes -> bytes -> bytes;
  AES_GCM_decrypt : CryptoKey -> bytes -> bytes -> option bytes;
  JSON_stringify : json -> jsstring;
  JSON_parse : jsstring -> option json;
  entropy : nat -> Z
}.

(** Decryption inverts encryption under the same key and nonce. *)
Definition gcm_correct (P : Platform) : Prop :=
  forall k iv m, AES_GCM_decrypt k iv (AES_GCM_encrypt k iv m) = Some m.

(** The result of an encryption is an [ArrayBuffer]: a list of octets. *)
Definition gcm_octets (P : Platform) : Prop :=
  forall k iv m, Forall is_byte m -> Forall is_byte (AES_GCM_encrypt k iv m).


Section SecureStorage.
Context {P : Platform}.

(** ** State *)

(** The module variables and the browser state they act on.  [putFaults]
    tells, request by request, which of the coming [put] requests the
    object store rejects; [putLog] records the requests issued, oldest
    first; [rngPos] is the position in the random stream. *)
Record World : Type := MkWorld {
  masterCryptoKey : option CryptoKey;
  masterPasswordForMigration : option jsstring;
  appDataStore : gmap string jsval;
  localStorage : gmap string jsstring;
  putFaults : list bool;
  putLog : list (string * jsval);
  rngPos : nat
}.

(** Computations that read and write the state and may throw.  The state
    reached when an exception is thrown is kept: assignments made before
    the throw are not undone. *)
Definition M (A : Type) : Type := World -> result A * World.

Definition ret {A} (a : A) : M A := fun w => (Ok a, w).
Definition throw {A} (e : exn) : M A := fun w => (Throw e, w).
Definition lift {A} (r : result A) : M A := fun w => (r, w).

Definition bind {A B} (m : M A) (k : A -> M B) : M B :=
  fun w =>
    match m w with
    | (Ok a, w') => k a w'
    | (Throw e, w') => (Throw e, w')
    end.

(** [try { m } catch (e) { h e }] *)
Definition try_catch {A} (m : M A) (h : exn -> M A) : M A :=
  fun w =>
    match m w with
    | (Ok a, w') => (Ok a, w')
    | (Throw e, w') => h e w'
    end.

Definition read {A} (f : World -> A) : M A := fun w => (Ok (f w), w).
Definition update (f : World -> World) : M unit := fun w => (Ok tt, f w).

End SecureStorage.

Notation "'let!' x ':=' m 'in' k" := (bind m (fun x => k))
  (at level 10, x name, m at level 100, k at level 200).
Notation "m '>>' k" := (bind m (fun _ => k))
  (at level 90, right associativity).

Section Operations.
Context {P : Platform}.

Definition set_masterCryptoKey (k : option CryptoKey) : M unit :=
  update (fun w => MkWorld k (masterPasswordForMigration w) (appDataStore w)
                     (localStorage w) (putFaults w) (putLog w) (rngPos w)).

Definition set_masterPasswordForMigration (p : option jsstring) : M unit :=
  update (fun w => MkWorld (masterCryptoKey w) p (appDataStore w)
                     (localStorage w) (putFaults w) (putLog w) (rngPos w)).

(** The [n] octets of the random stream from position [pos] on. *)
Definition random_bytes (pos n : nat) : bytes :=
  map (fun i => entropy (pos + i)%nat mod 256) (seq 0 n).

(** [window.crypto.getRandomValues(new Uint8Array(n))] *)
Definition getRandomValues (n : nat) : M bytes :=
  fun w =>
    (Ok (random_bytes (rngPos w) n),
     MkWorld (masterCryptoKey w) (masterPasswordForMigration w) (appDataStore w)
       (localStorage w) (putFaults w) (putLog w) (rngPos w + n)%nat).

(** ** Web Crypto helpers *)

Definition deriveKey (password : jsstring) (salt : jsval) : M CryptoKey :=
  match salt with
  | VBytes s => ret (PBKDF2 (TextEncoder_encode password) s)
  | _ => throw TypeError
  end.

Definition arrayBufferToBase64 (buffer : bytes) : result jsstring :=
  of_option InvalidCharacterError (btoa (map fromCharCode (Uint8Array buffer))).

Definition base64ToArrayBuffer (base64 : jsstring) : result bytes :=
  match atob base64 with
  | None => Throw InvalidCharacterError
  | Some binary_string => Ok (Uint8Array binary_string)
  end.

Definition encryptData (data : jsstring) (key : CryptoKey) : M jsstring :=
  let dataBuffer := TextEncoder_encode data in
  let! iv := getRandomValues 12 in
  let encryptedBuffer := AES_GCM_encrypt key iv dataBuffer in
  let combinedBuffer := iv ++ Uint8Array encryptedBuffer in
  lift (arrayBufferToBase64 combinedBuffer).

Definition decryptData (encryptedBase64 : jsstring) (key : CryptoKey) : result jsstring :=
  match base64ToArrayBuffer encryptedBase64 with
  | Throw e => Throw e
  | Ok combinedBuffer =>
      let iv := take 12 combinedBuffer in
      let ciphertext := drop 12 combinedBuffer in
      match AES_GCM_decrypt key iv ciphertext with
      | None => Throw OperationError
      | Some decryptedBuffer => Ok (TextDecoder_decode decryptedBuffer)
      end
  end.

(** ** IndexedDB and localStorage *)

(** Reading an open object store; a missing record reads as [undefined]. *)
Definition getFromDB (key : string) : M jsval :=
  read (fun w => default Undefined (appDataStore w !! key)).

(** A [put] request.  It is rejected (quota, aborted transaction) when
    [putFaults] says so, and then leaves the store as it was. *)
Definition setToDB (key : string) (value : jsval) : M unit :=
  fun w =>
    match putFaults w with
    | true :: faults =>
        (Throw DBRequestError,
         MkWorld (masterCryptoKey w) (masterPasswordForMigration w) (appDataStore w)
           (localStorage w) faults (putLog w ++ [(key, value)]) (rngPos w))
    | faults =>
        (Ok tt,
         MkWorld (masterCryptoKey w) (masterPasswordForMigration w)
           (<[key := value]> (appDataStore w))
           (localStorage w) (tail faults) (putLog w ++ [(key, value)]) (rngPos w))
    end.

Definition localStorage_removeItem (key : string) : M unit :=
  update (fun w => MkWorld (masterCryptoKey w) (masterPasswordForMigration w) (appDataStore w)
                     (delete key (localStorage w)) (putFaults w) (putLog w) (rngPos w)).

(** Moves a value left in localStorage by an older release into the
    object store; a failure is logged and swallowed. *)
Definition migrateKey (key : string) : M unit :=
  try_catch
    (let! lsValue := read (fun w => localStorage w !! key) in
     match lsValue with
     | Some v => setToDB key (VString v) >> localStorage_removeItem key
     | None => ret tt
     end)
    (fun _ => ret tt).

(** ** The exported operations *)

Definition hasMasterPassword : M bool :=
  migrateKey STORAGE_KEY_PASS_VERIFIER >>
  let! verifier := getFromDB STORAGE_KEY_PASS_VERIFIER in
  ret (match verifier with Undefined => false | _ => true end).

Definition setMasterPassword (password : jsstring) : M unit :=
  set_masterPasswordForMigration (Some password) >>
  let! salt := getRandomValues 16 in
  let! key := deriveKey password (VBytes salt) in
  set_masterCryptoKey (Some key) >>
  let! verifier := encryptData (str "password_is_correct") key in
  setToDB STORAGE_KEY_SALT (VBytes salt) >>
  setToDB STORAGE_KEY_PASS_VERIFIER (VString verifier) >>
  localStorage_removeItem STORAGE_KEY_PASS_VERIFIER >>
  localStorage_removeItem STORAGE_KEY_SALT.

Definition verifyMasterPassword (password : jsstring) : M bool :=
  set_masterPasswordForMigration (Some password) >>
  migrateKey STORAGE_KEY_PASS_VERIFIER >>
  migrateKey STORAGE_KEY_SALT >>
  let! salt := getFromDB STORAGE_KEY_SALT in
  let! verifier := getFromDB STORAGE_KEY_PASS_VERIFIER in
  if negb (truthy verifier) then ret false
  else if truthy salt then
    (* modern path (AES-GCM) *)
    try_catch
      (let! key := deriveKey password salt in
       set_masterCryptoKey (Some key) >>
       let! decrypted := lift (decryptData (ToString verifier) key) in
       ret (bool_decide (decrypted = str "password_is_correct")))
      (fun _ => ret false)
  else
    (* legacy path (XOR): masterCryptoKey is left as it is *)
    try_catch
      (let! decrypted := lift (legacyDecrypt (ToString verifier) password) in
       ret (bool_decide (decrypted = str "password_is_correct")))
      (fun _ => ret false).

Definition saveData (data : json) : M unit :=
  let! key := read masterCryptoKey in
  match key with
  | None => throw NoSessionKey
  | Some k =>
      let jsonString := JSON_stringify data in
      let! encryptedData := encryptData jsonString k in
      try_catch (setToDB STORAGE_KEY_DATA (VString encryptedData)) (fun e => throw e)
  end.

(** [loadData], with the default character list of the copy as a
    parameter: the two copies of the module differ in nothing else. *)
Definition loadData_with (defaultCharacters : list json) : M json :=
  migrateKey STORAGE_KEY_DATA >>
  let! encryptedData := getFromDB STORAGE_KEY_DATA in
  if negb (truthy encryptedData) then ret (defaultStructure defaultCharacters)
  else
    let! key := read masterCryptoKey in
    match key with
    | Some k =>
        (* modern path *)
        try_catch
          (let! jsonString := lift (decryptData (ToString encryptedData) k) in
           lift (of_option SyntaxError (JSON_parse jsonString)))
          (fun _ => throw DataCorrupt)
    | None =>
        let! held := read masterPasswordForMigration in
        match held with
        | Some ((_ :: _) as password) =>
            (* legacy path: decrypt with XOR, then migrate *)
            try_catch
              (let! jsonString := lift (legacyDecrypt (ToString encryptedData) password) in
               let! data := lift (of_option SyntaxError (JSON_parse jsonString)) in
               let! salt := getRandomValues 16 in
               let! newKey := deriveKey password (VBytes salt) in
               set_masterCryptoKey (Some newKey) >>
               saveData data >>
               let! verifier := encryptData (str "password_is_correct") newKey in
               setToDB STORAGE_KEY_SALT (VBytes salt) >>
               setToDB STORAGE_KEY_PASS_VERIFIER (VString verifier) >>
               ret data)
              (fun _ => throw MigrationFailed)
        | _ => throw NoMasterKey
        end
    end.

(** The first copy of the module (with the built-in characters). *)
Definition loadData : M json := loadData_with [zombieApocChar; amyChar].

(** The second copy, and the one bundled in [index.tsx]. *)
Definition loadData_bundled : M json := loadData_with [].

End Operations.

(** ** Notions used in the statements *)

(** The three states of the vault, as the two module variables encode
    them: a held key is Unlocked; no key and a non-empty held password is
    LegacyVerified (the state [loadData] migrates from); anything else is
    Locked. *)
Inductive SessionState : Type :=
  | Locked
  | LegacyVerified
  | Unlocked.

Definition sessionState {P : Platform} (w : World) : SessionState :=
  match masterCryptoKey w, masterPasswordForMigration w with
  | Some _, _ => Unlocked
  | None, Some (_ :: _) => LegacyVerified
  | None, _ => Locked
  end.

(** The blob [encryptData] builds from a nonce: nonce, then ciphertext
    and tag, in base64. *)
Definition sealed {P : Platform} (key : CryptoKey) (iv : bytes) (data : jsstring) : jsstring :=
  b64_encode (iv ++ Uint8Array (AES_GCM_encrypt key iv (TextEncoder_encode data))).

(** The state after [n] octets were drawn from the random stream. *)
Definition drawn {P : Platform} (n : nat) (w : World) : World :=
  MkWorld (masterCryptoKey w) (masterPasswordForMigration w) (appDataStore w)
    (localStorage w) (putFaults w) (putLog w) (rngPos w + n)%nat.

(** The requests a run of [m] from [w] adds to the log. *)
Definition puts_of {P : Platform} {A} (m : M A) (w : World) : list (string * jsval) :=
  drop (length (putLog w)) (putLog (snd (m w))).

(** The state in which [verifyMasterPassword] reads the salt and the
    verifier: the password is held, and what localStorage had of the two
    records was relocated. *)
Definition credentialsRelocated {P : Platform} (password : jsstring) (w : World) : World :=
  snd ((set_masterPasswordForMigration (Some password) >>
        migrateKey STORAGE_KEY_PASS_VERIFIER >>
        migrateKey STORAGE_KEY_SALT) w).

(** The record [loadData] reads, after the relocation from localStorage. *)
Definition dataRecord {P : Platform} (w : World) : jsval :=
  default Undefined (appDataStore (snd (migrateKey STORAGE_KEY_DATA w)) !! STORAGE_KEY_DATA).






(** A Unicode scalar value: a code point that is not a surrogate. *)
Definition is_scalar_value (cp : Z) : Prop :=
  0 <= cp < 0x110000 /\ ~ (0xD800 <= cp <= 0xDFFF).

(** Well-formed UTF-16: code units in range, surrogates only in pairs. *)
Fixpoint well_formed_utf16 (s : jsstring) : Prop :=
  match s with
  | [] => True
  | c :: r =>
      0 <= c < 65536 /\
      if is_high_surrogate c then
        match r with
        | d :: r' => is_low_surrogate d = true /\ 0 <= d < 65536 /\ well_formed_utf16 r'
        | [] => False
        end
      else is_low_surrogate c = false /\ well_formed_utf16 r
  end.

(** ** A small platform for examples *)

(** Stand-ins that satisfy the laws above, for running the operations on
    concrete states: an 8-bit key, a cipher that prepends a tag of the key
    and of the nonce, and a JSON reader that knows three literals. *)
Definition demo_sum (l : list Z) : Z := fold_right Z.add 0 l.

Definition demo_tag (k : ascii) : Z := Z.of_N (N_of_ascii k).

Definition demo_PBKDF2 (password salt : bytes) : ascii :=
  ascii_of_N (Z.to_N ((demo_sum password + demo_sum salt) mod 256)).

Definition demo_encrypt (k : ascii) (iv m : bytes) : bytes :=
  demo_tag k :: demo_sum iv mod 256 :: m.

Definition demo_decrypt (k : ascii) (iv c : bytes) : option bytes :=
  match c with
  | t :: u :: m =>
      if (t =? demo_tag k) && (u =? demo_sum iv mod 256) then Some m else None
  | _ => None
  end.

Definition demo_stringify (j : json) : jsstring :=
  match j with
  | JNull => str "null"
  | JArray [] => str "[]"
  | _ => str "{}"
  end.

Definition demo_parse (s : jsstring) : option json :=
  if bool_decide (s = str "{}") then Some (JObject [])
  else if bool_decide (s = str "[]") then Some (JArray [])
  else if bool_decide (s = str "null") then Some JNull
  else None.

Definition demo_entropy (n : nat) : Z := Z.of_nat n * 37 + 11.

Definition demo : Platform := {|
  CryptoKey := ascii;
  PBKDF2 := demo_PBKDF2;
  AES_GCM_encrypt := demo_encrypt;
  AES_GCM_decrypt := demo_decrypt;
  JSON_stringify := demo_stringify;
  JSON_parse := demo_parse;
  entropy := demo_entropy
|}.

(** A new installation, before any password is set. *)
Definition freshWorld : @World demo := MkWorld None None ∅ ∅ [] [] 0.

(** The salt and verifier that [setMasterPassword "correct-horse-battery-staple"]
    writes on a new installation. *)
Definition modernStore : gmap string jsval :=
  appDataStore (snd (setMasterPassword (str "correct-horse-battery-staple") freshWorld)).

(** A later process on that installation: nothing held in memory yet. *)
Definition modernLocked : @World demo := MkWorld None None modernStore ∅ [] [] 100.

(** Records left by the legacy release for the password "oldpass": the
    XOR of the sentinel and of the document [{}], in base64. *)
Definition legacyVerifier : jsstring :=
  Eval vm_compute in b64_encode (legacySimpleXOR (str "password_is_correct") (str "oldpass")).

Definition legacyBlob : jsstring :=
  Eval vm_compute in b64_encode (legacySimpleXOR (str "{}") (str "oldpass")).

Definition legacyStore : gmap string jsval :=
  <[STORAGE_KEY_DATA := VString legacyBlob]>
    (<[STORAGE_KEY_PASS_VERIFIER := VString legacyVerifier]> ∅).

(** The session after [verifyMasterPassword "oldpass"] on [legacyStore];
    [faults] are the rejections the object store has in stock. *)
Definition legacyVerified (faults : list bool) : @World demo :=
  MkWorld None (Some (str "oldpass")) legacyStore ∅ faults [] 0.

(** ** Notions for the statements on whole sessions *)

(** A later run of the application on the same browser profile: the two
    module variables start again from [null]; the object store,
    localStorage and the environment are as the earlier run left them. *)
Definition restart {P : Platform} (w : World) : World :=
  MkWorld None None (appDataStore w) (localStorage w) (putFaults w) (putLog w) (rngPos w).

(** The object store accepts the next [n] put requests. *)
Definition accepted (n : nat) (faults : list bool) : bool := forallb negb (take n faults).

(** The blob that [legacyDecrypt] turns back into [text] under
    [password]: the base64 of the UTF-8 of the XOR. *)
Definition legacyBlobOf (text password : jsstring) : jsstring :=
  b64_encode (TextEncoder_encode (legacySimpleXOR text password)).

(** A session unlocked under the demo key [k], with an empty store. *)
Definition unlockedWorld (faults : list bool) : @World demo :=
  MkWorld (P := demo) (Some "k"%char) None ∅ ∅ faults [] 0.

(** The legacy installation before the login: nothing held in memory. *)
Definition legacyLocked : @World demo := MkWorld None None legacyStore ∅ [] [] 0.

(** ** Splitting a text into chunks ([chunkText] of the RAG service) *)

(** [s.slice(start, end)] on integers: a negative index counts from the
    end, both are clamped to the string, and an empty range gives the
    empty string. *)
Definition slice (s : jsstring) (start fin : Z) : jsstring :=
  let len := Z.of_nat (length s) in
  let from := if start <? 0 then Z.max (len + start) 0 else Z.min start len in
  let to := if fin <? 0 then Z.max (len + fin) 0 else Z.min fin len in
  take (Z.to_nat (to - from)) (drop (Z.to_nat from) s).

(** The [while] loop of [chunkText], from the state [(i, chunks)].  Each
    unit of [fuel] pays for one test of the loop condition; [None] is a
    run that is still in the loop when the fuel is spent. *)
Fixpoint chunkText_loop (fuel : nat) (text : jsstring) (chunkSize overlap : Z)
    (i : Z) (chunks : list jsstring) : option (list jsstring) :=
  match fuel with
  | O => None
  | S fuel' =>
      if i <? Z.of_nat (length text) then
        let fin := Z.min (i + chunkSize) (Z.of_nat (length text)) in
        let chunks' := chunks ++ [slice text i fin] in
        let i' := i + (chunkSize - overlap) in
        let i'' := if i' + overlap >=? Z.of_nat (length text)
                   then Z.of_nat (length text) else i' in
        chunkText_loop fuel' text chunkSize overlap i'' chunks'
      else Some chunks
  end.

Definition chunkText_fuel (fuel : nat) (text : jsstring) (chunkSize overlap : Z)
  : option (list jsstring) :=
  chunkText_loop fuel text chunkSize overlap 0 [].

(** [chunkText(text, chunkSize, overlap)], with fuel for one test of the
    loop condition per code unit and one more. *)
Definition chunkText (text : jsstring) (chunkSize overlap : Z) : option (list jsstring) :=
  chunkText_fuel (S (length text)) text chunkSize overlap.

(** The text a list of chunks stands for: the first chunk, then every
    later chunk without the [overlap] code units it repeats. *)
Definition join_chunks (overlap : Z) (chunks : list jsstring) : jsstring :=
  match chunks with
  | [] => []
  | c :: rest => c ++ flat_map (drop (Z.to_nat overlap)) rest
  end.

(** ** The vector store *)

(** The object store [vectorStore] has the key path [id]: a record is
    filed under its own [id], and a [put] replaces the record with the
    same [id].  The indexes on [characterId] and [sourceId] are not
    unique.  The transactions are taken to complete.  [getAll] returns
    the records in the order of their keys; that order is not modelled,
    and the statements speak of membership only.  The embedding is a
    payload of a type [number] that is never inspected. *)
Module Vector.

Record VectorChunk (number : Type) : Type := MkVectorChunk {
  id : jsstring;
  characterId : jsstring;
  sourceId : jsstring;
  content : jsstring;
  embedding : list number
}.
Arguments MkVectorChunk {number}.
Arguments id {number}.
Arguments characterId {number}.
Arguments sourceId {number}.
Arguments content {number}.
Arguments embedding {number}.

Abbreviation vectorStore number := (gmap jsstring (VectorChunk number)) (only parsing).

Definition saveVectorChunks {number} (chunks : list (VectorChunk number))
    (store : vectorStore number) : vectorStore number :=
  foldl (fun store chunk => <[id chunk := chunk]> store) store chunks.

Definition getVectorChunksByCharacter {number} (character : jsstring)
    (store : vectorStore number) : list (VectorChunk number) :=
  filter (fun chunk => characterId chunk = character) (snd <$> map_to_list store).

Definition deleteVectorChunksBySource {number} (source : jsstring)
    (store : vectorStore number) : vectorStore number :=
  filter (fun record => sourceId (snd record) <> source) store.

(** Every record is filed under its own [id]. *)
Definition keyed {number} (store : vectorStore number) : Prop :=
  map_Forall (fun key chunk => id chunk = key) store.

End Vector.

(** A chunk of the character "amy", for examples. *)
Definition demoChunk (id source : string) : Vector.VectorChunk Z :=
  Vector.MkVectorChunk (str id) (str "amy") (str source) (str "text") [1; 2].


(** * Properties *)

(** ** The text codecs *)

Ltac zdm := Z.div_mod_to_equations; lia.

(** Settles a comparison the context decides, or splits on it. *)
Ltac settle_tests :=
  repeat first
    [ match goal with
      | |- context [?a <=? ?b] =>
          first [ rewrite (proj2 (Z.leb_le a b)) by zdm
                | rewrite (proj2 (Z.leb_gt a b)) by zdm ]
      | |- context [?a <? ?b] =>
          first [ rewrite (proj2 (Z.ltb_lt a b)) by zdm
                | rewrite (proj2 (Z.ltb_ge a b)) by zdm ]
      | |- context [?a =? ?b] =>
          first [ rewrite (proj2 (Z.eqb_eq a b)) by zdm
                | rewrite (proj2 (Z.eqb_neq a b)) by zdm ]
      end
    | progress cbn [andb orb negb] ].

(** *** Base64: [atob] inverts [btoa] on octets *)

Section Base64.

Lemma list_ind3 {A} (Q : list A -> Prop) :
  Q [] -> (forall a, Q [a]) -> (forall a b, Q [a; b]) ->
  (forall a b c r, Q r -> Q (a :: b :: c :: r)) ->
  forall l, Q l.
Proof.
  intros H0 H1 H2 H3.
  fix IH 1. intros [|a [|b [|c r]]]; [exact H0 | apply H1 | apply H2 | apply H3, IH].
Qed.

Lemma dec6_enc6 n : 0 <= n < 64 -> dec6 (enc6 n) = Some n.
Proof.
  intros H. unfold enc6, dec6.
  repeat match goal with
         | |- context [?a <? ?b] => destruct (Z.ltb_spec a b)
         | |- context [?a =? ?b] => destruct (Z.eqb_spec a b)
         | |- context [?a <=? ?b] => destruct (Z.leb_spec a b)
         | _ => progress simpl
         end; try lia; try (f_equal; lia); destruct (n =? 62); lia.
Qed.

Lemma enc6_plain n :
  0 <= n < 64 -> is_ascii_whitespace (enc6 n) = false /\ (enc6 n =? 61) = false.
Proof.
  intros H. unfold enc6, is_ascii_whitespace.
  repeat match goal with
         | |- context [?a <? ?b] => destruct (Z.ltb_spec a b)
         | |- context [?a =? ?b] => destruct (Z.eqb_spec a b)
         | _ => progress simpl
         end; try lia; try (split; reflexivity); destruct (n =? 62); lia.
Qed.

Lemma sextets a b c :
  is_byte a -> is_byte b -> is_byte c ->
  0 <= a / 4 < 64 /\ 0 <= (a mod 4) * 16 + b / 16 < 64
  /\ 0 <= (b mod 16) * 4 + c / 64 < 64 /\ 0 <= c mod 64 < 64
  /\ 0 <= (a mod 4) * 16 < 64 /\ 0 <= (b mod 16) * 4 < 64.
Proof. unfold is_byte. intros. repeat split; zdm. Qed.

Lemma octets a b c :
  is_byte a -> is_byte b -> is_byte c ->
  (a / 4) * 4 + ((a mod 4) * 16 + b / 16) / 16 = a
  /\ (((a mod 4) * 16 + b / 16) mod 16) * 16 + ((b mod 16) * 4 + c / 64) / 4 = b
  /\ (((b mod 16) * 4 + c / 64) mod 4) * 64 + c mod 64 = c
  /\ (a / 4) * 4 + ((a mod 4) * 16) / 16 = a
  /\ (((a mod 4) * 16 + b / 16) mod 16) * 16 + ((b mod 16) * 4) / 4 = b.
Proof. unfold is_byte. intros. repeat split; zdm. Qed.

Lemma b64_encode_no_whitespace l :
  Forall is_byte l ->
  filter (fun c => is_ascii_whitespace c = false) (b64_encode l) = b64_encode l.
Proof.
  induction l as [| a | a b | a b c r IH] using list_ind3; intros H.
  - done.
  - apply Forall_cons in H as [Ha _].
    destruct (sextets a 0 0 Ha) as (S1 & _ & _ & _ & S5 & _); [unfold is_byte; lia..|].
    simpl. rewrite !filter_cons.
    destruct (enc6_plain _ S1) as [-> _]. destruct (enc6_plain _ S5) as [-> _].
    done.
  - apply Forall_cons in H as [Ha H]. apply Forall_cons in H as [Hb _].
    destruct (sextets a b 0 Ha Hb) as (S1 & S2 & _ & _ & _ & S6); [unfold is_byte; lia|].
    simpl. rewrite !filter_cons.
    destruct (enc6_plain _ S1) as [-> _]. destruct (enc6_plain _ S2) as [-> _].
    destruct (enc6_plain _ S6) as [-> _]. done.
  - apply Forall_cons in H as [Ha H]. apply Forall_cons in H as [Hb H].
    apply Forall_cons in H as [Hc H].
    destruct (sextets a b c Ha Hb Hc) as (S1 & S2 & S3 & S4 & _ & _).
    simpl. rewrite !filter_cons.
    destruct (enc6_plain _ S1) as [-> _]. destruct (enc6_plain _ S2) as [-> _].
    destruct (enc6_plain _ S3) as [-> _]. destruct (enc6_plain _ S4) as [-> _].
    simpl. now rewrite IH.
Qed.

Lemma b64_encode_length l : exists k, length (b64_encode l) = (4 * k)%nat.
Proof.
  induction l as [| a | a b | a b c r [k IH]] using list_ind3.
  - now exists 0%nat.
  - now exists 1%nat.
  - now exists 1%nat.
  - exists (S k). simpl. rewrite IH. lia.
Qed.

Lemma strip_padding_b64_encode l :
  strip_padding (b64_encode l) = remove_trailing_eq (b64_encode l).
Proof.
  unfold strip_padding. destruct (b64_encode_length l) as [k ->].
  replace (Z.of_nat (4 * k) mod 4) with 0; [done|].
  rewrite Nat2Z.inj_mul. symmetry. rewrite Z.mul_comm. apply Z_mod_mult.
Qed.

Lemma b64_decode_encode l :
  Forall is_byte l ->
  b64_decode_groups (remove_trailing_eq (b64_encode l)) = Some l.
Proof.
  induction l as [| a | a b | a b c r IH] using list_ind3; intros H.
  - done.
  - apply Forall_cons in H as [Ha _].
    destruct (sextets a 0 0 Ha) as (S1 & _ & _ & _ & S5 & _); [unfold is_byte; lia..|].
    destruct (octets a 0 0 Ha) as (_ & _ & _ & O4 & _); [unfold is_byte; lia..|].
    cbn [b64_encode remove_trailing_eq]. rewrite Z.eqb_refl.
    cbn [b64_decode_groups]. rewrite !dec6_enc6 by done. simpl. now rewrite O4.
  - apply Forall_cons in H as [Ha H]. apply Forall_cons in H as [Hb _].
    destruct (sextets a b 0 Ha Hb) as (S1 & S2 & _ & _ & _ & S6); [unfold is_byte; lia|].
    destruct (octets a b 0 Ha Hb) as (O1 & _ & _ & _ & O5); [unfold is_byte; lia|].
    cbn [b64_encode remove_trailing_eq]. rewrite Z.eqb_refl.
    destruct (enc6_plain _ S6) as [_ ->].
    cbn [b64_decode_groups]. rewrite !dec6_enc6 by done. simpl. now rewrite O1, O5.
  - apply Forall_cons in H as [Ha H]. apply Forall_cons in H as [Hb H].
    apply Forall_cons in H as [Hc H].
    destruct (sextets a b c Ha Hb Hc) as (S1 & S2 & S3 & S4 & _ & _).
    destruct (octets a b c Ha Hb Hc) as (O1 & O2 & O3 & _ & _).
    specialize (IH H).
    assert (E : remove_trailing_eq (b64_encode (a :: b :: c :: r))
                = enc6 (a / 4) :: enc6 ((a mod 4) * 16 + b / 16)
                    :: enc6 ((b mod 16) * 4 + c / 64) :: enc6 (c mod 64)
                    :: remove_trailing_eq (b64_encode r)).
    { destruct (enc6_plain _ S4) as [_ E4].
      destruct r as [|a' [|b' [|c' r']]]; cbn [b64_encode remove_trailing_eq];
        rewrite ?E4; reflexivity. }
    rewrite E. cbn [b64_decode_groups]. rewrite !dec6_enc6 by done. simpl.
    rewrite IH. simpl. now rewrite O1, O2, O3.
Qed.

Lemma atob_b64_encode l : Forall is_byte l -> atob (b64_encode l) = Some l.
Proof.
  intros H. unfold atob.
  now rewrite b64_encode_no_whitespace, strip_padding_b64_encode, b64_decode_encode.
Qed.


End Base64.

(** *** UTF-8: [TextDecoder] inverts [TextEncoder] on well-formed strings *)

Section Utf8.

Lemma utf8_encode_cp_bytes cp :
  0 <= cp < 0x110000 -> Forall is_byte (utf8_encode_cp cp).
Proof.
  intros H. unfold utf8_encode_cp, is_byte.
  destruct (Z.ltb_spec cp 0x80); [|destruct (Z.ltb_spec cp 0x800); [|destruct (Z.ltb_spec cp 0x10000)]];
    repeat constructor; zdm.
Qed.

Lemma utf8_decode_encode_cp cp rest :
  is_scalar_value cp ->
  utf8_decode None (utf8_encode_cp cp ++ rest) = cp :: utf8_decode None rest.
Proof.
  intros [Hr Hs]. unfold utf8_encode_cp.
  destruct (Z.ltb_spec cp 0x80); [|destruct (Z.ltb_spec cp 0x800); [|destruct (Z.ltb_spec cp 0x10000)]].
  - cbn [app utf8_decode]. unfold utf8_lead_byte. settle_tests. reflexivity.
  - cbn [app utf8_decode]. unfold utf8_lead_byte. settle_tests.
    cbn [u_cp u_needed u_lower u_upper]. settle_tests.
    f_equal. zdm.
  - cbn [app utf8_decode]. unfold utf8_lead_byte. settle_tests.
    cbn [u_cp u_needed u_lower u_upper].
    destruct (Z.eqb_spec (0xE0 + cp / 4096) 0xE0); destruct (Z.eqb_spec (0xE0 + cp / 4096) 0xED);
      try lia; settle_tests; cbn [u_cp u_needed u_lower u_upper]; settle_tests; f_equal; zdm.
  - cbn [app utf8_decode]. unfold utf8_lead_byte. settle_tests.
    cbn [u_cp u_needed u_lower u_upper].
    destruct (Z.eqb_spec (0xF0 + cp / 262144) 0xF0); destruct (Z.eqb_spec (0xF0 + cp / 262144) 0xF4);
      try lia; settle_tests; cbn [u_cp u_needed u_lower u_upper]; settle_tests;
      cbn [u_cp u_needed u_lower u_upper]; settle_tests; f_equal; zdm.
Qed.


Lemma utf8_decode_encode cps :
  Forall is_scalar_value cps ->
  utf8_decode None (flat_map utf8_encode_cp cps) = cps.
Proof.
  induction 1 as [|cp cps Hcp _ IH]; [done|].
  cbn [flat_map]. now rewrite utf8_decode_encode_cp, IH.
Qed.

(** Induction that also gives the tail of the tail, as the pairing of
    surrogates needs. *)
Lemma list_pair_ind {A} (Q : list A -> Prop) :
  Q [] ->
  (forall c r, Q r -> (forall d r', r = d :: r' -> Q r') -> Q (c :: r)) ->
  forall l, Q l.
Proof.
  intros H0 Hstep l.
  enough (H : Q l /\ forall d r', l = d :: r' -> Q r') by apply H.
  induction l as [|c r [IH1 IH2]].
  - split; [done | discriminate].
  - split; [now apply Hstep|]. intros d r' [= _ <-]. exact IH1.
Qed.

Lemma surrogate_tests c :
  (is_high_surrogate c = true <-> 0xD800 <= c <= 0xDBFF)
  /\ (is_low_surrogate c = true <-> 0xDC00 <= c <= 0xDFFF).
Proof.
  unfold is_high_surrogate, is_low_surrogate.
  rewrite !andb_true_iff, !Z.leb_le. tauto.
Qed.

Lemma utf16_to_scalars_range s :
  Forall is_code_unit s -> Forall (fun cp => 0 <= cp < 0x110000) (utf16_to_scalars s).
Proof.
  induction s as [|c r IH1 IH2] using list_pair_ind; intros H; [constructor|].
  apply Forall_cons in H as [Hc Hr]. unfold is_code_unit in Hc.
  cbn [utf16_to_scalars].
  destruct (is_high_surrogate c) eqn:Eh.
  - apply surrogate_tests in Eh.
    destruct r as [|d r']; [repeat constructor; lia|].
    pose proof Hr as Hr'. apply Forall_cons in Hr' as [Hd Hr']. unfold is_code_unit in Hd.
    destruct (is_low_surrogate d) eqn:El.
    + apply surrogate_tests in El. constructor; [lia|]. now apply (IH2 d r').
    + constructor; [lia|]. now apply IH1.
  - destruct (is_low_surrogate c); (constructor; [lia|]); now apply IH1.
Qed.

Lemma TextEncoder_encode_bytes s :
  Forall is_code_unit s -> Forall is_byte (TextEncoder_encode s).
Proof.
  intros H. unfold TextEncoder_encode. apply Forall_flat_map.
  eapply Forall_impl; [apply utf16_to_scalars_range, H|].
  intros cp. apply utf8_encode_cp_bytes.
Qed.

Lemma well_formed_code_units s : well_formed_utf16 s -> Forall is_code_unit s.
Proof.
  induction s as [|c r IH1 IH2] using list_pair_ind; intros H; [constructor|].
  cbn [well_formed_utf16] in H. destruct H as [Hc H].
  constructor; [exact Hc|].
  destruct (is_high_surrogate c).
  - destruct r as [|d r']; [done|]. destruct H as (_ & Hd & H).
    constructor; [exact Hd|]. now apply (IH2 d r').
  - destruct H as [_ H]. now apply IH1.
Qed.

Lemma well_formed_scalars s :
  well_formed_utf16 s -> Forall is_scalar_value (utf16_to_scalars s).
Proof.
  induction s as [|c r IH1 IH2] using list_pair_ind; intros H; [constructor|].
  cbn [well_formed_utf16] in H. destruct H as [Hc H].
  cbn [utf16_to_scalars].
  destruct (is_high_surrogate c) eqn:Eh.
  - apply surrogate_tests in Eh.
    destruct r as [|d r']; [done|]. destruct H as (El & Hd & H). rewrite El.
    apply surrogate_tests in El.
    constructor; [unfold is_scalar_value; lia | now apply (IH2 d r')].
  - destruct H as [El H]. rewrite El. constructor; [|now apply IH1].
    unfold is_scalar_value. split; [lia|]. intros Hs.
    destruct (surrogate_tests c) as [S1 S2].
    assert (0xD800 <= c <= 0xDBFF \/ 0xDC00 <= c <= 0xDFFF) as [Hh|Hl] by lia.
    + apply S1 in Hh. congruence.
    + apply S2 in Hl. congruence.
Qed.

Lemma utf16_of_scalars s :
  well_formed_utf16 s -> flat_map utf16_encode_cp (utf16_to_scalars s) = s.
Proof.
  induction s as [|c r IH1 IH2] using list_pair_ind; intros H; [done|].
  cbn [well_formed_utf16] in H. destruct H as [Hc H].
  cbn [utf16_to_scalars].
  destruct (is_high_surrogate c) eqn:Eh.
  - apply surrogate_tests in Eh.
    destruct r as [|d r']; [done|]. destruct H as (El & Hd & H). rewrite El.
    apply surrogate_tests in El.
    cbn [flat_map]. rewrite (IH2 d r') by done.
    unfold utf16_encode_cp. rewrite (proj2 (Z.ltb_ge _ _)) by lia.
    cbn [app]. f_equal; [|f_equal]; zdm.
  - destruct H as [El H]. rewrite El. cbn [flat_map]. rewrite IH1 by done.
    unfold utf16_encode_cp. now rewrite (proj2 (Z.ltb_lt _ _)) by lia.
Qed.

(** The first code point of a well-formed string is U+FEFF only when its
    first code unit is. *)
Lemma drop_bom_scalars s :
  well_formed_utf16 s -> hd 0 s <> 0xFEFF ->
  drop_bom (utf16_to_scalars s) = utf16_to_scalars s.
Proof.
  destruct s as [|c r]; [done|]. cbn [hd well_formed_utf16 utf16_to_scalars].
  intros [Hc H] Hbom.
  destruct (is_high_surrogate c) eqn:Eh.
  - apply surrogate_tests in Eh.
    destruct r as [|d r']; [done|]. destruct H as (El & Hd & H). rewrite El.
    apply surrogate_tests in El.
    cbn [drop_bom]. now rewrite (proj2 (Z.eqb_neq _ _)) by lia.
  - destruct H as [El H]. rewrite El. cbn [drop_bom].
    now rewrite (proj2 (Z.eqb_neq _ _)) by lia.
Qed.

Lemma TextDecoder_TextEncoder s :
  well_formed_utf16 s -> hd 0 s <> 0xFEFF ->
  TextDecoder_decode (TextEncoder_encode s) = s.
Proof.
  intros Hwf Hbom. unfold TextDecoder_decode, TextEncoder_encode.
  rewrite utf8_decode_encode by now apply well_formed_scalars.
  rewrite drop_bom_scalars by done. now apply utf16_of_scalars.
Qed.

End Utf8.

(** *** [decodeURIComponent(escape(.))] decodes UTF-8 *)

Section UriCoding.

Lemma hex_value_digit n : 0 <= n < 16 -> hex_value (hex_digit n) = Some n.
Proof.
  intros H. unfold hex_digit, hex_value.
  destruct (Z.ltb_spec n 10); settle_tests; f_equal; lia.
Qed.

Lemma ParseHexOctet_digits c :
  0 <= c < 256 -> ParseHexOctet (hex_digit (c / 16)) (hex_digit (c mod 16)) = Some c.
Proof.
  intros H. unfold ParseHexOctet.
  rewrite !hex_value_digit by zdm. cbn. f_equal. zdm.
Qed.

Lemma escape_unit_high c :
  128 <= c < 256 -> escape_unit c = [37; hex_digit (c / 16); hex_digit (c mod 16)].
Proof.
  intros H. unfold escape_unit, escape_unescaped, is_alnum. settle_tests. reflexivity.
Qed.

Lemma Decode_escape_ascii c tail :
  0 <= c < 128 -> Decode (escape_unit c ++ tail) = cons c <$> Decode tail.
Proof.
  intros H. unfold escape_unit.
  destruct (escape_unescaped c) eqn:E.
  - assert (c <> 37).
    { intros ->. discriminate. }
    cbn [app Decode]. now rewrite (proj2 (Z.eqb_neq _ _)) by done.
  - rewrite (proj2 (Z.ltb_lt _ _)) by lia.
    cbn [app Decode]. cbn [Z.eqb Pos.eqb negb].
    rewrite ParseHexOctet_digits by lia. cbn [mbind option_bind].
    now rewrite (proj2 (Z.ltb_lt _ _)) by lia.
Qed.


Lemma utf8_encode_cp_high cp :
  0x80 <= cp < 0x110000 -> Forall (fun b => 128 <= b < 256) (utf8_encode_cp cp).
Proof.
  intros H. unfold utf8_encode_cp.
  rewrite (proj2 (Z.ltb_ge _ _)) by lia.
  destruct (Z.ltb_spec cp 0x800); [|destruct (Z.ltb_spec cp 0x10000)];
    repeat constructor; zdm.
Qed.

Lemma escape_cons c s : escape (c :: s) = escape_unit c ++ escape s.
Proof. reflexivity. Qed.

Lemma Decode_escape_cp cp tail :
  is_scalar_value cp ->
  Decode (escape (utf8_encode_cp cp) ++ tail) = app (utf16_encode_cp cp) <$> Decode tail.
Proof.
  intros [Hr Hs].
  destruct (Z.ltb_spec cp 0x80) as [Hlow|Hhigh].
  { unfold utf8_encode_cp, utf16_encode_cp.
    rewrite (proj2 (Z.ltb_lt cp 0x80)), (proj2 (Z.ltb_lt cp 0x10000)) by lia.
    rewrite escape_cons. cbn [escape flat_map]. rewrite app_nil_r.
    now rewrite Decode_escape_ascii by lia. }
  pose proof (utf8_encode_cp_high cp) as Hb.
  unfold utf8_encode_cp in *.
  rewrite (proj2 (Z.ltb_ge cp 0x80)) in * by lia.
  destruct (Z.ltb_spec cp 0x800) as [Hc|Hc]; [|destruct (Z.ltb_spec cp 0x10000) as [Hd|Hd]].
  - specialize (Hb ltac:(lia)).
    apply Forall_cons in Hb as [H0 Hb]. apply Forall_cons in Hb as [H1 _].
    rewrite !escape_cons, !escape_unit_high by done. cbn [escape flat_map app].
    cbn [Decode Z.eqb Pos.eqb negb]. unfold escaped_octet. cbn [Z.eqb Pos.eqb].
    rewrite !ParseHexOctet_digits by lia. cbn [mbind option_bind].
    settle_tests.
    unfold utf8_code_point, in_range. settle_tests. cbn [mbind option_bind].
    replace (((0xC0 + cp / 64) mod 32) * 64 + (0x80 + cp mod 64) mod 64) with cp by zdm.
    reflexivity.
  - specialize (Hb ltac:(lia)).
    apply Forall_cons in Hb as [H0 Hb]. apply Forall_cons in Hb as [H1 Hb].
    apply Forall_cons in Hb as [H2 _].
    rewrite !escape_cons, !escape_unit_high by done. cbn [escape flat_map app].
    cbn [Decode Z.eqb Pos.eqb negb]. unfold escaped_octet. cbn [Z.eqb Pos.eqb].
    rewrite !ParseHexOctet_digits by lia. cbn [mbind option_bind].
    settle_tests.
    unfold utf8_code_point, in_range.
    destruct (Z.eqb_spec (0xE0 + cp / 4096) 0xE0);
      destruct (Z.eqb_spec (0xE0 + cp / 4096) 0xED); try lia;
      settle_tests; cbn [mbind option_bind].
    all: replace ((((0xE0 + cp / 4096) mod 16) * 64 + (0x80 + (cp / 64) mod 64) mod 64) * 64
                  + (0x80 + cp mod 64) mod 64) with cp by zdm.
    all: reflexivity.
  - specialize (Hb ltac:(lia)).
    apply Forall_cons in Hb as [H0 Hb]. apply Forall_cons in Hb as [H1 Hb].
    apply Forall_cons in Hb as [H2 Hb]. apply Forall_cons in Hb as [H3 _].
    rewrite !escape_cons, !escape_unit_high by done. cbn [escape flat_map app].
    cbn [Decode Z.eqb Pos.eqb negb]. unfold escaped_octet. cbn [Z.eqb Pos.eqb].
    rewrite !ParseHexOctet_digits by lia. cbn [mbind option_bind].
    settle_tests.
    unfold utf8_code_point, in_range.
    destruct (Z.eqb_spec (0xF0 + cp / 262144) 0xF0);
      destruct (Z.eqb_spec (0xF0 + cp / 262144) 0xF4); try lia;
      settle_tests; cbn [mbind option_bind].
    all: replace (((((0xF0 + cp / 262144) mod 8) * 64 + (0x80 + (cp / 4096) mod 64) mod 64) * 64
                   + (0x80 + (cp / 64) mod 64) mod 64) * 64
                  + (0x80 + cp mod 64) mod 64) with cp by zdm.
    all: reflexivity.
Qed.

Lemma escape_app s t : escape (s ++ t) = escape s ++ escape t.
Proof. unfold escape. apply flat_map_app. Qed.

Lemma Decode_escape_utf8 cps :
  Forall is_scalar_value cps ->
  Decode (escape (flat_map utf8_encode_cp cps)) = Some (flat_map utf16_encode_cp cps).
Proof.
  induction 1 as [|cp cps Hcp _ IH]; [done|].
  cbn [flat_map]. rewrite escape_app, Decode_escape_cp by done.
  now rewrite IH.
Qed.

(** On the UTF-8 of a well-formed string, [binaryToUtf16] returns the
    string. *)
Lemma binaryToUtf16_TextEncoder s :
  well_formed_utf16 s -> binaryToUtf16 (TextEncoder_encode s) = Some s.
Proof.
  intros H. unfold binaryToUtf16, decodeURIComponent, TextEncoder_encode.
  rewrite Decode_escape_utf8 by now apply well_formed_scalars.
  now rewrite utf16_of_scalars.
Qed.

End UriCoding.

(** ** Buffers, nonces and the sealed blob *)

Section Sealing.
Context {P : Platform}.

Lemma Uint8Array_bytes l : Forall is_byte (Uint8Array l).
Proof.
  unfold Uint8Array. apply Forall_map, Forall_true. intros b. unfold is_byte. simpl.
  apply Z.mod_pos_bound. lia.
Qed.

Lemma Uint8Array_id l : Forall is_byte l -> Uint8Array l = l.
Proof.
  unfold Uint8Array, is_byte. induction 1 as [|b l Hb _ IH]; simpl; [done|].
  rewrite IH, Z.mod_small by lia. done.
Qed.

Lemma random_bytes_bytes pos n : Forall is_byte (random_bytes pos n).
Proof.
  unfold random_bytes. apply Forall_map, Forall_true. intros i. unfold is_byte. simpl.
  apply Z.mod_pos_bound. lia.
Qed.

Lemma random_bytes_length pos n : length (random_bytes pos n) = n.
Proof. unfold random_bytes. now rewrite length_map, length_seq. Qed.

(** On the contents of a [Uint8Array], [btoa] cannot throw. *)
Lemma btoa_bytes l : Forall is_byte l -> btoa (map fromCharCode l) = Some (b64_encode l).
Proof.
  intros H.
  assert (E : map fromCharCode l = l).
  { induction H as [|b l Hb _ IH]; simpl; [done|].
    unfold fromCharCode at 1. unfold is_byte in Hb. rewrite Z.mod_small by lia. now rewrite IH. }
  rewrite E. unfold btoa.
  assert (F : forallb (fun c => (0 <=? c) && (c <? 256)) l = true).
  { apply forallb_forall. intros x Hx. rewrite Forall_forall in H.
    apply list_elem_of_In, H in Hx. unfold is_byte in Hx.
    apply andb_true_iff. split; [apply Z.leb_le | apply Z.ltb_lt]; lia. }
  now rewrite F.
Qed.

Lemma arrayBufferToBase64_ok buffer :
  arrayBufferToBase64 buffer = Ok (b64_encode (Uint8Array buffer)).
Proof.
  unfold arrayBufferToBase64. now rewrite btoa_bytes by apply Uint8Array_bytes.
Qed.

Lemma base64ToArrayBuffer_b64_encode l :
  Forall is_byte l -> base64ToArrayBuffer (b64_encode l) = Ok l.
Proof.
  intros H. unfold base64ToArrayBuffer.
  now rewrite atob_b64_encode, Uint8Array_id.
Qed.

(** [encryptData] always returns: it draws twelve octets and seals. *)
Lemma encryptData_run data key w :
  encryptData data key w = (Ok (sealed key (random_bytes (rngPos w) 12) data), drawn 12 w).
Proof.
  unfold encryptData, bind, getRandomValues, lift. rewrite arrayBufferToBase64_ok.
  unfold sealed, drawn. do 3 f_equal.
  apply Uint8Array_id. apply Forall_app. split.
  - apply random_bytes_bytes.
  - apply Uint8Array_bytes.
Qed.

(** What [decryptData] does with a sealed blob: it hands the nonce and
    the ciphertext back to AES-GCM, under the key it is given. *)
Lemma decryptData_sealed key key' iv data :
  gcm_octets P -> Forall is_code_unit data ->
  length iv = 12%nat -> Forall is_byte iv ->
  decryptData (sealed key iv data) key'
  = match AES_GCM_decrypt key' iv (AES_GCM_encrypt key iv (TextEncoder_encode data)) with
    | None => Throw OperationError
    | Some decryptedBuffer => Ok (TextDecoder_decode decryptedBuffer)
    end.
Proof.
  intros Hoct Hdata Hlen Hiv.
  assert (Hct : Forall is_byte (AES_GCM_encrypt key iv (TextEncoder_encode data))).
  { apply Hoct. now apply TextEncoder_encode_bytes. }
  unfold decryptData, sealed. rewrite Uint8Array_id by exact Hct.
  rewrite base64ToArrayBuffer_b64_encode by (apply Forall_app; split; [exact Hiv | exact Hct]).
  rewrite take_app_length' by (symmetry; exact Hlen).
  rewrite drop_app_length' by (symmetry; exact Hlen).
  reflexivity.
Qed.


End Sealing.

(** ** Running the operations *)

(** Unfolds the monad and the primitive operations on a state given by
    its fields. *)
Ltac exec :=
  cbv beta iota zeta delta
    [bind try_catch lift ret throw read update getFromDB setToDB getRandomValues
     deriveKey set_masterCryptoKey set_masterPasswordForMigration
     localStorage_removeItem saveData drawn of_option negb fst snd
     masterCryptoKey masterPasswordForMigration appDataStore localStorage
     putFaults putLog rngPos tail].

Section StateMachine.
Context {P : Platform}.

Lemma bind_ok {A B} (m : M A) (k : A -> M B) w a w' :
  m w = (Ok a, w') -> bind m k w = k a w'.
Proof. intros E. unfold bind. now rewrite E. Qed.

(** *** The session state in terms of the two variables *)

Lemma sessionState_Unlocked w :
  sessionState w <> Unlocked <-> masterCryptoKey w = None.
Proof.
  unfold sessionState. destruct (masterCryptoKey w).
  - split; [intros H; now contradiction H | discriminate].
  - split; [done|]. intros _. now destruct (masterPasswordForMigration w) as [[|? ?]|].
Qed.

Lemma sessionState_LegacyVerified w :
  sessionState w = LegacyVerified <->
  masterCryptoKey w = None /\ exists c pw, masterPasswordForMigration w = Some (c :: pw).
Proof.
  unfold sessionState.
  destruct (masterCryptoKey w); [split; [discriminate | intros [? _]; discriminate]|].
  destruct (masterPasswordForMigration w) as [[|c pw]|].
  - split; [discriminate | intros (_ & ? & ? & ?); discriminate].
  - split; eauto.
  - split; [discriminate | intros (_ & ? & ? & ?); discriminate].
Qed.

Lemma sessionState_Locked w :
  sessionState w = Locked <->
  masterCryptoKey w = None
  /\ (masterPasswordForMigration w = None \/ masterPasswordForMigration w = Some []).
Proof.
  unfold sessionState.
  destruct (masterCryptoKey w); [split; [discriminate | intros [? _]; discriminate]|].
  destruct (masterPasswordForMigration w) as [[|c pw]|].
  - split; auto.
  - split; [discriminate | intros (_ & [?|?]); discriminate].
  - split; auto.
Qed.

(** A handler that throws [e0] whatever it catches. *)
Lemma try_catch_rethrow {A} (m : M A) e0 w e :
  fst (try_catch m (fun _ => throw e0) w) = Throw e -> e = e0.
Proof.
  unfold try_catch, throw. destruct (m w) as [[a|e'] w']; simpl; congruence.
Qed.

(** *** The relocation from localStorage *)

(** [migrateKey] swallows every failure, and never touches the two
    module variables. *)
Lemma migrateKey_run key w :
  exists w1, migrateKey key w = (Ok tt, w1)
             /\ masterCryptoKey w1 = masterCryptoKey w
             /\ masterPasswordForMigration w1 = masterPasswordForMigration w
             /\ rngPos w1 = rngPos w
             /\ putLog w1 = putLog w ++ puts_of (migrateKey key) w.
Proof.
  destruct w as [k p store ls faults log pos].
  unfold puts_of, migrateKey. exec.
  destruct (ls !! key) as [v|].
  - destruct faults as [|[] faults]; eexists; (split; [reflexivity|]);
      cbn [masterCryptoKey masterPasswordForMigration rngPos putLog snd];
      now rewrite drop_app_length.
  - eexists. split; [reflexivity|].
    cbn [masterCryptoKey masterPasswordForMigration rngPos putLog snd].
    now rewrite drop_all, app_nil_r.
Qed.

Lemma migrateKey_nothing key w :
  localStorage w !! key = None -> migrateKey key w = (Ok tt, w).
Proof.
  intros H. destruct w as [k p store ls faults log pos]. cbn [localStorage] in H.
  unfold migrateKey. exec. now rewrite H.
Qed.

Lemma dataRecord_nothing w :
  localStorage w !! STORAGE_KEY_DATA = None ->
  dataRecord w = default Undefined (appDataStore w !! STORAGE_KEY_DATA).
Proof. intros H. unfold dataRecord. now rewrite migrateKey_nothing. Qed.

(** *** The branches of [loadData] *)

Lemma loadData_absent d w :
  truthy (dataRecord w) = false ->
  loadData_with d w = (Ok (defaultStructure d), snd (migrateKey STORAGE_KEY_DATA w)).
Proof.
  unfold dataRecord. intros H.
  destruct (migrateKey_run STORAGE_KEY_DATA w) as (w1 & E & _).
  rewrite E in *. cbn [snd] in H.
  unfold loadData_with. rewrite (bind_ok _ _ _ _ _ E).
  destruct w1 as [k1 p1 store ls faults log pos]. cbn [appDataStore] in H.
  exec. now rewrite H.
Qed.

Lemma loadData_no_key d w :
  truthy (dataRecord w) = true ->
  masterCryptoKey w = None ->
  masterPasswordForMigration w = None \/ masterPasswordForMigration w = Some [] ->
  loadData_with d w = (Throw NoMasterKey, snd (migrateKey STORAGE_KEY_DATA w)).
Proof.
  unfold dataRecord. intros H Hk Hp.
  destruct (migrateKey_run STORAGE_KEY_DATA w) as (w1 & E & Hk1 & Hp1 & _).
  rewrite E in *. cbn [snd] in H.
  unfold loadData_with. rewrite (bind_ok _ _ _ _ _ E).
  rewrite <- Hk1 in Hk. rewrite <- Hp1 in Hp.
  destruct w1 as [k1 p1 store ls faults log pos]. cbn [appDataStore masterCryptoKey masterPasswordForMigration] in H, Hk, Hp. subst k1.
  exec. rewrite H. now destruct Hp as [-> | ->].
Qed.

Lemma loadData_modern d w k e :
  truthy (dataRecord w) = true ->
  masterCryptoKey w = Some k ->
  fst (loadData_with d w) = Throw e -> e = DataCorrupt.
Proof.
  unfold dataRecord. intros H Hk.
  destruct (migrateKey_run STORAGE_KEY_DATA w) as (w1 & E & Hk1 & Hp1 & _).
  rewrite E in *. cbn [snd] in H.
  unfold loadData_with. rewrite (bind_ok _ _ _ _ _ E).
  rewrite <- Hk1 in Hk.
  destruct w1 as [k1 p1 store ls faults log pos]. cbn [appDataStore masterCryptoKey] in H, Hk. subst k1.
  cbv beta iota delta [bind read getFromDB negb fst snd masterCryptoKey appDataStore].
  rewrite H. apply try_catch_rethrow.
Qed.

Lemma loadData_legacy d w c pw e :
  truthy (dataRecord w) = true ->
  masterCryptoKey w = None ->
  masterPasswordForMigration w = Some (c :: pw) ->
  fst (loadData_with d w) = Throw e -> e = MigrationFailed.
Proof.
  unfold dataRecord. intros H Hk Hp.
  destruct (migrateKey_run STORAGE_KEY_DATA w) as (w1 & E & Hk1 & Hp1 & _).
  rewrite E in *. cbn [snd] in H.
  unfold loadData_with. rewrite (bind_ok _ _ _ _ _ E).
  rewrite <- Hk1 in Hk. rewrite <- Hp1 in Hp.
  destruct w1 as [k1 p1 store ls faults log pos]. cbn [appDataStore masterCryptoKey masterPasswordForMigration] in H, Hk, Hp. subst k1 p1.
  cbv beta iota delta [bind read getFromDB negb fst snd masterCryptoKey
                         masterPasswordForMigration appDataStore].
  rewrite H. apply try_catch_rethrow.
Qed.

End StateMachine.
(** ** Relations that every step maintains *)

Section Preservation.
Context {P : Platform}.
Variable R : World -> World -> Prop.
Hypothesis R_refl : forall w, R w w.
Hypothesis R_trans : forall w1 w2 w3, R w1 w2 -> R w2 w3 -> R w1 w3.








End Preservation.


(** *** The held password is only ever assigned by the two password calls *)

Section Password.
Context {P : Platform}.













End Password.

(** *** Only salts, sealed blobs and relocated values reach the store *)

Section Writes.
Context {P : Platform}.

















End Writes.
(** ** The example platform satisfies the laws *)

Lemma demo_gcm_correct : gcm_correct demo.
Proof.
  intros k iv m. cbn [AES_GCM_decrypt AES_GCM_encrypt demo].
  unfold demo_decrypt, demo_encrypt. now rewrite !Z.eqb_refl.
Qed.

Lemma demo_tag_byte k : is_byte (demo_tag k).
Proof.
  unfold is_byte, demo_tag. pose proof (N_ascii_bounded k). lia.
Qed.

Lemma demo_gcm_octets : gcm_octets demo.
Proof.
  intros k iv m Hm. cbn [AES_GCM_encrypt demo]. unfold demo_encrypt.
  constructor; [apply demo_tag_byte|]. constructor; [|exact Hm].
  unfold is_byte. apply Z.mod_pos_bound. lia.
Qed.


(** ** The claims *)

Section Claims.
Context {P : Platform}.

(** What follows the assignment and the two relocations at the head of
    [verifyMasterPassword] runs from [credentialsRelocated]. *)
Lemma after_relocation {A} password (k : M A) w :
  (set_masterPasswordForMigration (Some password) >>
   migrateKey STORAGE_KEY_PASS_VERIFIER >>
   migrateKey STORAGE_KEY_SALT >> k) w
  = k (credentialsRelocated password w).
Proof.
  unfold credentialsRelocated, bind, set_masterPasswordForMigration, update.
  match goal with |- context [migrateKey STORAGE_KEY_PASS_VERIFIER ?wa] =>
    destruct (migrateKey_run STORAGE_KEY_PASS_VERIFIER wa) as (wb & -> & _) end.
  destruct (migrateKey_run STORAGE_KEY_SALT wb) as (wc & -> & _).
  reflexivity.
Qed.

(** C1 (code defect).  On the modern path [verifyMasterPassword] assigns
    [masterCryptoKey] before it decrypts the verifier: when the decryption
    fails the call returns [false], as the claim says, but the session key
    is left set to the key derived from the rejected password. *)
Theorem verifyMasterPassword_failure_sets_key (password : jsstring) (w : World)
    (salt : bytes) (verifier : jsval) (e : exn) :
  appDataStore (credentialsRelocated password w) !! STORAGE_KEY_SALT = Some (VBytes salt) ->
  appDataStore (credentialsRelocated password w) !! STORAGE_KEY_PASS_VERIFIER = Some verifier ->
  truthy verifier = true ->
  decryptData (ToString verifier) (PBKDF2 (TextEncoder_encode password) salt) = Throw e ->
  fst (verifyMasterPassword password w) = Ok false
  /\ masterCryptoKey (snd (verifyMasterPassword password w))
     = Some (PBKDF2 (TextEncoder_encode password) salt)
  /\ appDataStore (snd (verifyMasterPassword password w))
     = appDataStore (credentialsRelocated password w).
Proof.
  unfold verifyMasterPassword. rewrite !after_relocation.
  destruct (credentialsRelocated password w) as [k p store ls faults log pos].
  cbn [appDataStore]. intros Hs Hv Htv Hd.
  exec. rewrite Hs, Hv. cbn [default from_option id truthy]. rewrite Htv.
  exec. rewrite Hd. auto.
Qed.

(** C2 (code defect).  The migration assigns [masterCryptoKey] before it
    writes anything.  When the first write (the re-encrypted data blob) is
    rejected, [loadData] surfaces MigrationFailed, as the claim says, but
    the session now holds the new key: it is no longer LegacyVerified, the
    stored blob is still the legacy one, and a retry goes down the modern
    path, where it can only fail with DataCorrupt. *)
Theorem loadData_failed_migration_sets_key (d : list json) (w : World)
    (pw : jsstring) (js : jsstring) (data : json) (faults : list bool) :
  sessionState w = LegacyVerified ->
  masterPasswordForMigration w = Some pw ->
  truthy (dataRecord w) = true ->
  legacyDecrypt (ToString (dataRecord w)) pw = Ok js ->
  JSON_parse js = Some data ->
  putFaults (snd (migrateKey STORAGE_KEY_DATA w)) = true :: faults ->
  exists w',
    loadData_with d w = (Throw MigrationFailed, w')
    /\ sessionState w' = Unlocked
    /\ masterCryptoKey w' =
         Some (PBKDF2 (TextEncoder_encode pw) (random_bytes (rngPos w) 16))
    /\ masterPasswordForMigration w' = Some pw
    /\ appDataStore w' = appDataStore (snd (migrateKey STORAGE_KEY_DATA w))
    /\ forall e, fst (loadData_with d w') = Throw e -> e = DataCorrupt.
Proof.
  intros Hstate Hp. apply sessionState_LegacyVerified in Hstate as (Hk & c & pw' & Hp').
  rewrite Hp in Hp'. injection Hp' as ->.
  unfold dataRecord. intros Ht Hdec Hparse Hfaults.
  destruct (migrateKey_run STORAGE_KEY_DATA w) as (w1 & E & Hk1 & Hp1 & Hr1 & _).
  rewrite E in *. cbn [snd] in Ht, Hdec, Hfaults |- *.
  rewrite <- Hk1 in Hk. rewrite <- Hp1 in Hp. rewrite <- Hr1. clear Hk1 Hp1 Hr1.
  unfold loadData_with at 1. rewrite (bind_ok _ _ _ _ _ E). clear E.
  destruct w1 as [k p store ls fs log pos].
  cbn [masterCryptoKey masterPasswordForMigration appDataStore putFaults rngPos]
    in Hk, Hp, Ht, Hdec, Hfaults |- *.
  subst k p fs.
  eexists. split; [|split; [|split; [|split; [|split]]]].
  - exec. rewrite Ht. exec. rewrite Hdec. exec. rewrite Hparse. exec.
    rewrite encryptData_run. exec. reflexivity.
  - reflexivity.
  - reflexivity.
  - reflexivity.
  - reflexivity.
  - intros e He.
    match type of He with fst (loadData_with d ?w2) = _ => set (w' := w2) in * end.
    destruct (truthy (dataRecord w')) eqn:Ht'.
    + eapply loadData_modern; [exact Ht' | reflexivity | exact He].
    + rewrite loadData_absent in He by exact Ht'. discriminate.
Qed.

(** C3 (amended).  A migration that succeeds issues its three writes in
    the order data blob, salt, verifier: [saveData] runs first, and the
    salt and the verifier follow.  They come after the request by which
    [migrateKey] relocates a data record left in localStorage, if there is
    one. *)
Theorem migration_write_order (d : list json) (w : World) (data : json) :
  sessionState w = LegacyVerified ->
  truthy (dataRecord w) = true ->
  fst (loadData_with d w) = Ok data ->
  map fst (puts_of (loadData_with d) w)
  = map fst (puts_of (migrateKey STORAGE_KEY_DATA) w)
    ++ [STORAGE_KEY_DATA; STORAGE_KEY_SALT; STORAGE_KEY_PASS_VERIFIER].
Proof.
  intros Hstate. apply sessionState_LegacyVerified in Hstate as (Hk & c & pw & Hp).
  unfold dataRecord. intros Ht.
  destruct (migrateKey_run STORAGE_KEY_DATA w) as (w1 & E & Hk1 & Hp1 & _ & Hlog).
  rewrite E in Ht. cbn [snd] in Ht.
  rewrite <- Hk1 in Hk. rewrite <- Hp1 in Hp. clear Hk1 Hp1.
  unfold puts_of at 1. unfold loadData_with. rewrite (bind_ok _ _ _ _ _ E). clear E.
  generalize dependent (puts_of (migrateKey STORAGE_KEY_DATA) w). intros new Hlog.
  generalize dependent (putLog w). intros log0 Hlog.
  destruct w1 as [k p store ls fs log pos].
  cbn [masterCryptoKey masterPasswordForMigration appDataStore putLog] in Hk, Hp, Ht, Hlog.
  subst k p log.
  exec. rewrite Ht. exec.
  destruct (legacyDecrypt _ (c :: pw)) as [js|e]; exec; [|intros ?; discriminate].
  destruct (JSON_parse js) as [data'|]; exec; [|intros ?; discriminate].
  rewrite encryptData_run. exec.
  destruct fs as [|[] fs]; exec; try (intros ?; discriminate).
  all: rewrite encryptData_run; exec.
  all: try (destruct fs as [|[] fs]; exec; try (intros ?; discriminate)).
  all: try (destruct fs as [|[] fs]; exec; try (intros ?; discriminate)).
  all: intros _; rewrite <- !app_assoc, drop_app_length, map_app; reflexivity.
Qed.


(** C5 (amended).  With no data record in the object store and none left
    in localStorage, [loadData] returns the default structure, raises
    nothing and changes nothing, in every session state.  The
    chat-session, plugin and lorebook collections of that structure are
    empty; its character collection is empty in the second copy of the
    module and in the bundle, and holds the two built-in characters in the
    first copy. *)
Theorem loadData_first_run (w : World) :
  appDataStore w !! STORAGE_KEY_DATA = None ->
  localStorage w !! STORAGE_KEY_DATA = None ->
  loadData w = (Ok (defaultStructure [zombieApocChar; amyChar]), w)
  /\ loadData_bundled w = (Ok (defaultStructure []), w)
  /\ forall characters,
       json_field "characters" (defaultStructure characters) = Some (JArray characters)
       /\ json_field "chatSessions" (defaultStructure characters) = Some (JArray [])
       /\ json_field "plugins" (defaultStructure characters) = Some (JArray [])
       /\ json_field "lorebooks" (defaultStructure characters) = Some (JArray []).
Proof.
  intros Hdb Hls.
  assert (H : forall d, loadData_with d w = (Ok (defaultStructure d), w)).
  { intros d. rewrite loadData_absent.
    - now rewrite migrateKey_nothing.
    - rewrite dataRecord_nothing by done. now rewrite Hdb. }
  split; [apply H | split; [apply H |]].
  intros characters. repeat split.
Qed.

(** C6 (amended).  [legacyDecrypt] throws LegacyKeyMissing exactly when
    the password is empty.  With a non-empty password it still throws when
    the blob is not base64 ([atob]) or when the decoded octets are not
    UTF-8 ([decodeURIComponent]); otherwise it returns the XOR of the
    decoded text with the password, a step that cannot throw.  In
    particular it returns on every blob that is the base64 of the UTF-8 of
    a well-formed string. *)
Theorem legacyDecrypt_throws_iff (blob pw : jsstring) :
  (legacyDecrypt blob pw = Throw LegacyKeyMissing <-> pw = [])
  /\ ((exists e, legacyDecrypt blob pw = Throw e) <->
      pw = [] \/ atob blob = None
      \/ exists binary, atob blob = Some binary /\ binaryToUtf16 binary = None)
  /\ (forall binary xorResult,
        pw <> [] -> atob blob = Some binary -> binaryToUtf16 binary = Some xorResult ->
        legacyDecrypt blob pw = Ok (legacySimpleXOR xorResult pw))
  /\ (forall text,
        pw <> [] -> well_formed_utf16 text ->
        legacyDecrypt (b64_encode (TextEncoder_encode text)) pw
        = Ok (legacySimpleXOR text pw)).
Proof.
  assert (Hlast : forall text,
            pw <> [] -> well_formed_utf16 text ->
            legacyDecrypt (b64_encode (TextEncoder_encode text)) pw
            = Ok (legacySimpleXOR text pw)).
  { intros text Hpw Hwf. unfold legacyDecrypt.
    destruct pw as [|c pw']; [done|].
    rewrite atob_b64_encode
      by now apply TextEncoder_encode_bytes, well_formed_code_units.
    now rewrite binaryToUtf16_TextEncoder. }
  unfold legacyDecrypt. destruct pw as [|c pw].
  - split; [|split; [|split]].
    + split; auto.
    + split; eauto.
    + intros ? ? H. now contradiction H.
    + intros ? H. now contradiction H.
  - destruct (atob blob) as [binary|]; [destruct (binaryToUtf16 binary) as [x|] eqn:E|].
    + split; [|split; [|split]].
      * split; discriminate.
      * split; [intros [e He]; discriminate|].
        intros [H | [H | (b & [= <-] & H)]]; congruence.
      * intros b x' _ [= <-] H. rewrite E in H. now injection H as <-.
      * exact Hlast.
    + split; [|split; [|split]].
      * split; discriminate.
      * split; [intros _|eauto]. right. right. eauto.
      * intros b x' _ [= <-] H. congruence.
      * exact Hlast.
    + split; [|split; [|split]].
      * split; discriminate.
      * split; [intros _; auto | eauto].
      * intros b x' _ H. discriminate.
      * exact Hlast.
Qed.

End Claims.



Section ClaimsOnSession.
Context {P : Platform}.

(** C9.  Without a session key (Locked or LegacyVerified) [saveData]
    raises NoSessionKey and leaves the whole state as it was: nothing is
    written and no request is issued. *)
Theorem saveData_requires_session_key (data : json) (w : World) :
  sessionState w <> Unlocked ->
  saveData data w = (Throw NoSessionKey, w).
Proof.
  intros H. apply sessionState_Unlocked in H.
  destruct w as [k p store ls faults log pos].
  cbn [masterCryptoKey] in H. subst k. reflexivity.
Qed.

(** C10.  [loadData] looks at the data record before it looks at the
    session: with no record it returns the default structure in every
    session state, Locked included, and it raises the no-master-key error
    exactly when the record it read is a non-empty value and the session
    is Locked (no session key, no non-empty migration password). *)
Theorem loadData_checks_record_first (d : list json) (w : World) :
  (appDataStore w !! STORAGE_KEY_DATA = None ->
   localStorage w !! STORAGE_KEY_DATA = None ->
   loadData_with d w = (Ok (defaultStructure d), w))
  /\ (truthy (dataRecord w) = false ->
      fst (loadData_with d w) = Ok (defaultStructure d))
  /\ (fst (loadData_with d w) = Throw NoMasterKey <->
      truthy (dataRecord w) = true /\ sessionState w = Locked).
Proof.
  split; [|split].
  - intros Hdb Hls.
    rewrite loadData_absent.
    + now rewrite migrateKey_nothing.
    + rewrite dataRecord_nothing by done. now rewrite Hdb.
  - intros H. now rewrite loadData_absent.
  - rewrite sessionState_Locked. split.
    + intros H.
      destruct (truthy (dataRecord w)) eqn:Ht.
      2:{ rewrite loadData_absent in H by done. discriminate. }
      destruct (masterCryptoKey w) as [k|] eqn:Hk.
      { apply (loadData_modern d w k) in H; [discriminate | done | done]. }
      destruct (masterPasswordForMigration w) as [[|c pw]|] eqn:Hp; auto.
      apply (loadData_legacy d w c pw) in H; [discriminate | done..].
    + intros (Ht & Hk & Hp). now rewrite loadData_no_key.
Qed.

End ClaimsOnSession.
(** ** The claims on concrete states *)

(** C1 at a concrete input: the store written for the password
    "correct-horse-battery-staple", and a login with "wrong-password". *)
Lemma verifyMasterPassword_failure_sets_key_witness :
  fst (verifyMasterPassword (str "wrong-password") modernLocked) = Ok false
  /\ masterCryptoKey (snd (verifyMasterPassword (str "wrong-password") modernLocked))
     = Some (demo_PBKDF2 (TextEncoder_encode (str "wrong-password"))
                         (random_bytes (P := demo) 0 16)).
Proof.
  destruct (verifyMasterPassword_failure_sets_key (P := demo)
              (str "wrong-password") modernLocked (random_bytes (P := demo) 0 16)
              (VString (sealed (P := demo)
                          (demo_PBKDF2 (TextEncoder_encode (str "correct-horse-battery-staple"))
                                       (random_bytes (P := demo) 0 16))
                          (random_bytes (P := demo) 16 12) (str "password_is_correct")))
              OperationError)
    as (Hres & Hkey & _); [vm_compute; reflexivity .. |].
  split; [exact Hres | exact Hkey].
Defined.

(** C2 at a concrete input: a legacy session whose first write is
    rejected. *)
Lemma loadData_failed_migration_sets_key_witness :
  exists w',
    loadData (legacyVerified [true]) = (Throw MigrationFailed, w')
    /\ sessionState w' = Unlocked
    /\ fst (loadData w') = Throw DataCorrupt.
Proof.
  destruct (loadData_failed_migration_sets_key (P := demo) [zombieApocChar; amyChar]
              (legacyVerified [true]) (str "oldpass") (str "{}") (JObject []) [])
    as (w' & Hrun & Hstate & _ & _ & _ & Hretry);
    [vm_compute; reflexivity .. |].
  exists w'. split; [exact Hrun|]. split; [exact Hstate|].
  apply (f_equal snd) in Hrun. cbn [snd] in Hrun. subst w'.
  vm_compute; reflexivity.
Defined.

(** C3, the spec's order refuted: the first request of the migration is
    the data blob, not the salt. *)
Lemma migration_writes_data_first :
  fst (loadData (legacyVerified [])) = Ok (JObject [])
  /\ map fst (puts_of loadData (legacyVerified []))
     <> [STORAGE_KEY_SALT; STORAGE_KEY_PASS_VERIFIER; STORAGE_KEY_DATA].
Proof.
  split; [vm_compute; reflexivity|]. vm_compute. discriminate.
Qed.

Lemma migration_write_order_witness :
  map fst (puts_of loadData (legacyVerified []))
  = [STORAGE_KEY_DATA; STORAGE_KEY_SALT; STORAGE_KEY_PASS_VERIFIER].
Proof.
  unfold loadData.
  rewrite (migration_write_order (P := demo) [zombieApocChar; amyChar]
             (legacyVerified []) (JObject []));
    vm_compute; reflexivity.
Defined.

(** The same with the legacy blob still in localStorage: the relocation
    comes first, then the three writes of the migration. *)
Lemma migration_write_order_after_relocation :
  map fst (puts_of loadData
             (MkWorld (P := demo) None (Some (str "oldpass"))
                (<[STORAGE_KEY_PASS_VERIFIER := VString legacyVerifier]> ∅)
                (<[STORAGE_KEY_DATA := legacyBlob]> ∅) [] [] 0))
  = [STORAGE_KEY_DATA; STORAGE_KEY_DATA; STORAGE_KEY_SALT; STORAGE_KEY_PASS_VERIFIER].
Proof. vm_compute; reflexivity. Qed.


(** C5, the claim refuted on the first copy of the module: on a new
    installation the character collection returned is not empty. *)
Lemma loadData_default_has_characters :
  fst (loadData freshWorld) = Ok (defaultStructure [zombieApocChar; amyChar])
  /\ json_field "characters" (defaultStructure [zombieApocChar; amyChar])
     <> Some (JArray []).
Proof.
  split; [vm_compute; reflexivity | vm_compute; discriminate].
Qed.

Lemma loadData_first_run_witness :
  loadData freshWorld = (Ok (defaultStructure [zombieApocChar; amyChar]), freshWorld)
  /\ loadData_bundled freshWorld = (Ok (defaultStructure []), freshWorld).
Proof.
  destruct (loadData_first_run (P := demo) freshWorld) as (H1 & H2 & _);
    [reflexivity | reflexivity |].
  split; [exact H1 | exact H2].
Defined.

(** C6, the claim refuted: a non-empty password, and the cipher throws on
    a blob that is not base64. *)
Lemma legacyDecrypt_throws_on_bad_base64 :
  str "a" <> [] /\ legacyDecrypt (str "!") (str "a") = Throw InvalidCharacterError.
Proof.
  split; [discriminate | vm_compute; reflexivity].
Qed.

(** It also throws on base64 of octets that are not UTF-8. *)
Lemma legacyDecrypt_throws_on_bad_utf8 :
  legacyDecrypt (str "/w==") (str "a") = Throw URIError.
Proof. vm_compute; reflexivity. Qed.

Lemma legacyDecrypt_throws_iff_witness :
  legacyDecrypt legacyBlob (str "oldpass") = Ok (str "{}").
Proof.
  rewrite (proj1 (proj2 (proj2 (legacyDecrypt_throws_iff legacyBlob (str "oldpass"))))
             [20; 17] [20; 17]).
  - vm_compute; reflexivity.
  - discriminate.
  - vm_compute; reflexivity.
  - vm_compute; reflexivity.
Defined.


(** A leading U+FEFF is lost in the same way. *)
Lemma round_trip_drops_leading_bom :
  exists blob,
    fst (encryptData (P := demo) (0xFEFF :: str "{}") "k"%char freshWorld) = Ok blob
    /\ decryptData (P := demo) blob "k"%char = Ok (str "{}").
Proof.
  eexists. split; [vm_compute; reflexivity|]. vm_compute; reflexivity.
Qed.



Lemma saveData_requires_session_key_witness :
  saveData JNull (legacyVerified []) = (Throw NoSessionKey, legacyVerified []).
Proof.
  apply (saveData_requires_session_key (P := demo)). discriminate.
Defined.

Lemma loadData_checks_record_first_witness :
  loadData_with [] freshWorld = (Ok (defaultStructure []), freshWorld)
  /\ fst (loadData_with [] (MkWorld (P := demo) None None legacyStore ∅ [] [] 0))
     = Throw NoMasterKey.
Proof.
  split.
  - apply (proj1 (loadData_checks_record_first (P := demo) [] freshWorld)); reflexivity.
  - apply (proj2 (proj2 (loadData_checks_record_first (P := demo) []
                           (MkWorld (P := demo) None None legacyStore ∅ [] [] 0)))).
    split; [vm_compute; reflexivity | reflexivity].
Defined.

(** * Further properties of the module *)

(** ** Literals, accepted writes and sealed records *)

Section Literals.

Lemma str_small s : Forall (fun c => 0 <= c < 256) (str s).
Proof.
  induction s as [|a s IH]; simpl; constructor; [|exact IH].
  pose proof (N_ascii_bounded a). lia.
Qed.

Lemma below_surrogates_well_formed s :
  Forall (fun c => 0 <= c < 0xD800) s -> well_formed_utf16 s.
Proof.
  induction 1 as [|c s Hc _ IH]; simpl; [exact I|].
  split; [lia|].
  unfold is_high_surrogate, is_low_surrogate.
  rewrite (proj2 (Z.leb_gt 0xD800 c)) by lia.
  rewrite (proj2 (Z.leb_gt 0xDC00 c)) by lia. cbn [andb]. auto.
Qed.

Lemma str_well_formed s : well_formed_utf16 (str s).
Proof.
  apply below_surrogates_well_formed.
  eapply Forall_impl; [apply str_small|]. cbn. intros; lia.
Qed.

Lemma str_no_bom s : hd 0 (str s) <> 0xFEFF.
Proof.
  pose proof (str_small s) as H. destruct H as [|c r Hc _]; simpl; lia.
Qed.

Lemma str_code_units s : Forall is_code_unit (str s).
Proof. apply well_formed_code_units, str_well_formed. Qed.

End Literals.

Section Credentials.
Context {P : Platform}.

Lemma sealed_truthy key iv data :
  length iv = 12%nat -> truthy (VString (sealed key iv data)) = true.
Proof.
  unfold sealed. destruct iv as [|a [|b [|c r]]]; try discriminate. reflexivity.
Qed.

Lemma sentinel_round_trip key iv key' :
  gcm_correct P -> gcm_octets P ->
  length iv = 12%nat -> Forall is_byte iv ->
  key' = key ->
  decryptData (sealed key iv (str "password_is_correct")) key'
  = Ok (str "password_is_correct").
Proof.
  intros Hc Ho Hl Hb ->.
  rewrite decryptData_sealed by (try done; apply str_code_units).
  rewrite Hc. now rewrite TextDecoder_TextEncoder by (apply str_well_formed || apply str_no_bom).
Qed.

(** The state [setMasterPassword] reaches when its two writes are
    accepted. *)
Lemma setMasterPassword_run password w :
  accepted 2 (putFaults w) = true ->
  setMasterPassword password w
  = (Ok tt,
     MkWorld
       (Some (PBKDF2 (TextEncoder_encode password) (random_bytes (rngPos w) 16)))
       (Some password)
       (<[STORAGE_KEY_PASS_VERIFIER :=
            VString (sealed (PBKDF2 (TextEncoder_encode password) (random_bytes (rngPos w) 16))
                       (random_bytes (rngPos w + 16) 12) (str "password_is_correct"))]>
          (<[STORAGE_KEY_SALT := VBytes (random_bytes (rngPos w) 16)]> (appDataStore w)))
       (delete STORAGE_KEY_SALT (delete STORAGE_KEY_PASS_VERIFIER (localStorage w)))
       (tail (tail (putFaults w)))
       (putLog w ++
          [(STORAGE_KEY_SALT, VBytes (random_bytes (rngPos w) 16));
           (STORAGE_KEY_PASS_VERIFIER,
            VString (sealed (PBKDF2 (TextEncoder_encode password) (random_bytes (rngPos w) 16))
                       (random_bytes (rngPos w + 16) 12) (str "password_is_correct")))])
       (rngPos w + 16 + 12)%nat).
Proof.
  destruct w as [k p store ls faults log pos]. cbn [putFaults].
  intros Ha. unfold setMasterPassword. exec. rewrite encryptData_run. exec.
  destruct faults as [|[] [|[] fs]]; try discriminate; exec;
    rewrite <- ?app_assoc; reflexivity.
Qed.

(** Nothing of the credentials is left in localStorage: the two
    relocations at the head of [verifyMasterPassword] do nothing. *)
Lemma credentialsRelocated_nothing password w :
  localStorage w !! STORAGE_KEY_PASS_VERIFIER = None ->
  localStorage w !! STORAGE_KEY_SALT = None ->
  credentialsRelocated password w
  = MkWorld (masterCryptoKey w) (Some password) (appDataStore w) (localStorage w)
      (putFaults w) (putLog w) (rngPos w).
Proof.
  intros Hv Hs. unfold credentialsRelocated.
  destruct w as [k p store ls faults log pos]. cbn [localStorage] in Hv, Hs.
  unfold bind at 1. unfold set_masterPasswordForMigration, update.
  cbv beta iota. cbn [masterCryptoKey appDataStore localStorage putFaults putLog rngPos].
  erewrite bind_ok by (apply migrateKey_nothing; exact Hv).
  rewrite migrateKey_nothing by exact Hs. reflexivity.
Qed.

(** The modern path on a verifier that [encryptData] sealed under [key]:
    the password is accepted when the key derived from it opens the
    verifier. *)
Lemma verifyMasterPassword_sealed password w salt key iv :
  gcm_octets P ->
  localStorage w !! STORAGE_KEY_PASS_VERIFIER = None ->
  localStorage w !! STORAGE_KEY_SALT = None ->
  appDataStore w !! STORAGE_KEY_SALT = Some (VBytes salt) ->
  appDataStore w !! STORAGE_KEY_PASS_VERIFIER
    = Some (VString (sealed key iv (str "password_is_correct"))) ->
  length iv = 12%nat -> Forall is_byte iv ->
  verifyMasterPassword password w
  = (match decryptData (sealed key iv (str "password_is_correct"))
             (PBKDF2 (TextEncoder_encode password) salt) with
     | Ok decrypted => Ok (bool_decide (decrypted = str "password_is_correct"))
     | Throw _ => Ok false
     end,
     MkWorld (Some (PBKDF2 (TextEncoder_encode password) salt)) (Some password)
       (appDataStore w) (localStorage w) (putFaults w) (putLog w) (rngPos w)).
Proof.
  intros Ho Hlv Hls Hs Hv Hl Hb.
  unfold verifyMasterPassword. rewrite !after_relocation.
  rewrite credentialsRelocated_nothing by assumption.
  destruct w as [k p store ls faults log pos].
  cbn [appDataStore masterCryptoKey localStorage putFaults putLog rngPos] in *.
  exec. rewrite Hs, Hv. cbn [default from_option id]. rewrite sealed_truthy by exact Hl.
  cbn [truthy ToString]. exec.
  destruct (decryptData _ _); reflexivity.
Qed.

End Credentials.

Section Xor.

Lemma lxor_code_unit a b : is_code_unit a -> is_code_unit b -> is_code_unit (Z.lxor a b).
Proof.
  unfold is_code_unit. intros Ha Hb.
  assert (H0 : 0 <= Z.lxor a b) by (apply Z.lxor_nonneg; lia).
  split; [exact H0|].
  destruct (Z.eq_dec (Z.lxor a b) 0) as [->|Hn]; [lia|].
  change 65536 with (2 ^ 16). apply Z.log2_lt_pow2; [lia|].
  pose proof (Z.log2_lxor a b ltac:(lia) ltac:(lia)) as Hl.
  assert (La : Z.log2 a < 16).
  { destruct (Z.eq_dec a 0) as [->|]; [reflexivity|]. apply Z.log2_lt_pow2; lia. }
  assert (Lb : Z.log2 b < 16).
  { destruct (Z.eq_dec b 0) as [->|]; [reflexivity|]. apply Z.log2_lt_pow2; lia. }
  lia.
Qed.

Lemma charCodeAt_code_unit key i : Forall is_code_unit key -> is_code_unit (charCodeAt key i).
Proof.
  intros H. unfold charCodeAt. revert i.
  induction H as [|c key Hc _ IH]; intros [|i]; simpl; try (unfold is_code_unit; lia); auto.
Qed.

Lemma legacySimpleXOR_length data key :
  length (legacySimpleXOR data key) = length data.
Proof. apply length_imap. Qed.

Lemma legacySimpleXOR_twice data key :
  Forall is_code_unit data -> Forall is_code_unit key ->
  legacySimpleXOR (legacySimpleXOR data key) key = data.
Proof.
  intros Hd Hk. apply list_eq. intros i. unfold legacySimpleXOR.
  rewrite !list_lookup_imap. destruct (data !! i) as [c|] eqn:E; [|reflexivity].
  cbn. f_equal.
  pose proof (proj1 (Forall_lookup _ _) Hd i c E) as Hc.
  pose proof (charCodeAt_code_unit key (i mod length key) Hk) as Hkc.
  pose proof (lxor_code_unit _ _ Hc Hkc) as Hx.
  unfold fromCharCode. unfold is_code_unit in *.
  rewrite (Z.mod_small (Z.lxor c _)) by lia.
  rewrite Z.lxor_assoc, Z.lxor_nilpotent, Z.lxor_0_r.
  apply Z.mod_small. lia.
Qed.

Lemma b64_encode_nonempty l : l <> [] -> b64_encode l <> [].
Proof. destruct l as [|a [|b [|c r]]]; [done | discriminate ..]. Qed.

Lemma utf8_encode_cp_nonempty cp rest : utf8_encode_cp cp ++ rest <> [].
Proof.
  unfold utf8_encode_cp.
  destruct (cp <? 0x80); [discriminate|].
  destruct (cp <? 0x800); [discriminate|].
  destruct (cp <? 0x10000); discriminate.
Qed.

Lemma TextEncoder_encode_nonempty s : s <> [] -> TextEncoder_encode s <> [].
Proof.
  destruct s as [|c r]; [done|]. intros _. unfold TextEncoder_encode.
  cbn [utf16_to_scalars].
  destruct (is_high_surrogate c).
  - destruct r as [|d r]; [|destruct (is_low_surrogate d)];
      cbn [flat_map]; apply utf8_encode_cp_nonempty.
  - destruct (is_low_surrogate c); cbn [flat_map]; apply utf8_encode_cp_nonempty.
Qed.

(** The legacy blob of a text that is not empty is a truthy value. *)
Lemma legacyBlobOf_truthy text password :
  text <> [] -> truthy (VString (legacyBlobOf text password)) = true.
Proof.
  intros Hne. unfold legacyBlobOf.
  destruct (b64_encode _) as [|x r] eqn:E; [|reflexivity].
  apply b64_encode_nonempty in E; [done|].
  apply TextEncoder_encode_nonempty.
  intros H. apply (f_equal length) in H. rewrite legacySimpleXOR_length in H.
  now destruct text.
Qed.

End Xor.

(** ** Logging in *)

Section Login.
Context {P : Platform}.

Lemma credentialsRelocated_key password w :
  masterCryptoKey (credentialsRelocated password w) = masterCryptoKey w
  /\ masterPasswordForMigration (credentialsRelocated password w) = Some password.
Proof.
  unfold credentialsRelocated, bind, set_masterPasswordForMigration, update.
  match goal with |- context [migrateKey STORAGE_KEY_PASS_VERIFIER ?wa] =>
    destruct (migrateKey_run STORAGE_KEY_PASS_VERIFIER wa) as (wb & -> & Hk & Hp & _) end.
  destruct (migrateKey_run STORAGE_KEY_SALT wb) as (wc & -> & Hk' & Hp' & _).
  cbn [snd]. rewrite Hk', Hk, Hp', Hp. split; reflexivity.
Qed.

(** The verifier record [verifyMasterPassword] reads is the one
    [hasMasterPassword] reads. *)
Lemma verifier_after_relocation password w :
  default Undefined (appDataStore (credentialsRelocated password w) !! STORAGE_KEY_PASS_VERIFIER)
  = default Undefined
      (appDataStore (snd (migrateKey STORAGE_KEY_PASS_VERIFIER w)) !! STORAGE_KEY_PASS_VERIFIER).
Proof.
  destruct w as [k p store ls faults log pos].
  unfold credentialsRelocated, migrateKey. exec.
  destruct (ls !! STORAGE_KEY_PASS_VERIFIER) as [v|] eqn:Ev.
  - destruct faults as [|[] fs]; exec.
    + rewrite lookup_delete_ne by done.
      destruct (ls !! STORAGE_KEY_SALT) as [s|]; exec;
        rewrite ?lookup_insert_ne by done; reflexivity.
    + destruct (ls !! STORAGE_KEY_SALT) as [s|]; exec; [|reflexivity].
      destruct fs as [|[] fs]; exec; rewrite ?lookup_insert_ne by done; reflexivity.
    + rewrite lookup_delete_ne by done.
      destruct (ls !! STORAGE_KEY_SALT) as [s|]; exec; [|reflexivity].
      destruct fs as [|[] fs]; exec; rewrite ?lookup_insert_ne by done; reflexivity.
  - exec. destruct (ls !! STORAGE_KEY_SALT) as [s|]; exec; [|reflexivity].
    destruct faults as [|[] fs]; exec; rewrite ?lookup_insert_ne by done; reflexivity.
Qed.

End Login.

Section SessionProperties.
Context {P : Platform}.

(** X1.  [base64ToArrayBuffer] inverts [arrayBufferToBase64]: the
    encoding never throws, and decoding its result gives back the octets
    of the buffer. *)
Theorem base64ToArrayBuffer_arrayBufferToBase64 (buffer : bytes) :
  exists base64,
    arrayBufferToBase64 buffer = Ok base64
    /\ base64ToArrayBuffer base64 = Ok (Uint8Array buffer).
Proof.
  exists (b64_encode (Uint8Array buffer)). split.
  - apply arrayBufferToBase64_ok.
  - apply base64ToArrayBuffer_b64_encode, Uint8Array_bytes.
Qed.

(** X2.  The legacy XOR cipher is its own inverse on strings of code
    units and keeps the length of its input; with an empty key it leaves
    the text as it is. *)
Theorem legacySimpleXOR_involution (data key : jsstring) :
  Forall is_code_unit data -> Forall is_code_unit key ->
  legacySimpleXOR (legacySimpleXOR data key) key = data
  /\ length (legacySimpleXOR data key) = length data
  /\ legacySimpleXOR data [] = data.
Proof.
  intros Hd Hk. split; [now apply legacySimpleXOR_twice|].
  split; [apply legacySimpleXOR_length|].
  apply list_eq. intros i. unfold legacySimpleXOR. rewrite list_lookup_imap.
  destruct (data !! i) as [c|] eqn:E; [|reflexivity].
  assert (Hnil : forall n, charCodeAt [] n = 0) by (intros [|n]; reflexivity).
  rewrite Hnil. cbn. f_equal.
  pose proof (proj1 (Forall_lookup _ _) Hd i c E) as Hc. unfold is_code_unit in Hc.
  rewrite Z.lxor_0_r. unfold fromCharCode. apply Z.mod_small. lia.
Qed.

(** X3.  [legacyDecrypt] inverts the legacy encoding: for a non-empty
    password, the base64 of the UTF-8 of the XOR of a text decrypts to the
    text, provided the XOR is well-formed UTF-16. *)
Theorem legacyDecrypt_legacyBlobOf (text password : jsstring) :
  password <> [] ->
  Forall is_code_unit text -> Forall is_code_unit password ->
  well_formed_utf16 (legacySimpleXOR text password) ->
  legacyDecrypt (legacyBlobOf text password) password = Ok text.
Proof.
  intros Hne Ht Hp Hwf. unfold legacyDecrypt, legacyBlobOf.
  destruct password as [|c pw] eqn:E; [done|]. rewrite <- E in *.
  rewrite atob_b64_encode by now apply TextEncoder_encode_bytes, well_formed_code_units.
  rewrite binaryToUtf16_TextEncoder by exact Hwf.
  now rewrite legacySimpleXOR_twice.
Qed.

(** X4.  The legacy path of [verifyMasterPassword] (no usable salt, a
    verifier present) changes nothing but what the relocation and the
    assignment of the password changed: [masterCryptoKey] keeps its value.
    The answer is [true] exactly when [legacyDecrypt] turns the verifier
    into the sentinel. *)
Theorem verifyMasterPassword_legacy_path (password : jsstring) (w : World) (verifier : jsval) :
  truthy (default Undefined
            (appDataStore (credentialsRelocated password w) !! STORAGE_KEY_SALT)) = false ->
  appDataStore (credentialsRelocated password w) !! STORAGE_KEY_PASS_VERIFIER = Some verifier ->
  truthy verifier = true ->
  snd (verifyMasterPassword password w) = credentialsRelocated password w
  /\ masterCryptoKey (snd (verifyMasterPassword password w)) = masterCryptoKey w
  /\ (exists b, fst (verifyMasterPassword password w) = Ok b)
  /\ (fst (verifyMasterPassword password w) = Ok true
      <-> legacyDecrypt (ToString verifier) password = Ok (str "password_is_correct")).
Proof.
  intros Hs Hv Ht.
  pose proof (credentialsRelocated_key password w) as [Hk _].
  unfold verifyMasterPassword. rewrite !after_relocation.
  destruct (credentialsRelocated password w) as [k p store ls faults log pos].
  cbn [appDataStore masterCryptoKey] in Hs, Hv, Hk.
  exec. rewrite Hv. cbn [default from_option id]. rewrite Ht, Hs. exec.
  destruct (legacyDecrypt (ToString verifier) password) as [d|e]; exec.
  - split; [reflexivity|]. split; [exact Hk|]. split; [eauto|].
    split.
    + intros [= H]. apply bool_decide_eq_true in H. now subst d.
    + intros [= ->]. now rewrite bool_decide_eq_true_2.
  - split; [reflexivity|]. split; [exact Hk|]. split; [eauto|].
    split; discriminate.
Qed.

(** X5.  A login against the records of the legacy release: with no salt
    and the legacy blob of the sentinel as verifier, the password that
    made the blob is accepted, and a session that held no key becomes
    LegacyVerified. *)
Theorem verifyMasterPassword_legacy_accepts (password : jsstring) (w : World) :
  password <> [] -> Forall is_code_unit password ->
  well_formed_utf16 (legacySimpleXOR (str "password_is_correct") password) ->
  appDataStore (credentialsRelocated password w) !! STORAGE_KEY_SALT = None ->
  appDataStore (credentialsRelocated password w) !! STORAGE_KEY_PASS_VERIFIER
    = Some (VString (legacyBlobOf (str "password_is_correct") password)) ->
  masterCryptoKey w = None ->
  verifyMasterPassword password w = (Ok true, credentialsRelocated password w)
  /\ sessionState (snd (verifyMasterPassword password w)) = LegacyVerified.
Proof.
  intros Hne Hp Hwf Hs Hv Hk.
  pose proof (credentialsRelocated_key password w) as [Hk' Hp'].
  rewrite Hk in Hk'.
  assert (Hrun : verifyMasterPassword password w = (Ok true, credentialsRelocated password w)).
  { unfold verifyMasterPassword. rewrite !after_relocation.
    destruct (credentialsRelocated password w) as [k p store ls faults log pos].
    cbn [appDataStore] in Hs, Hv.
    exec. rewrite Hv, Hs. cbn [default from_option id ToString].
    assert (Ht : truthy (VString (legacyBlobOf (str "password_is_correct") password)) = true)
      by (apply legacyBlobOf_truthy; discriminate).
    rewrite Ht. exec.
    rewrite legacyDecrypt_legacyBlobOf by (try done; apply str_code_units).
    exec. now rewrite bool_decide_eq_true_2. }
  split; [exact Hrun|]. rewrite Hrun. cbn [snd].
  unfold sessionState. rewrite Hk', Hp'. now destruct password.
Qed.

End SessionProperties.

Section PasswordLifecycle.
Context {P : Platform}.

(** X6.  A password set by [setMasterPassword] is accepted by
    [verifyMasterPassword] in a later run of the application (the module
    variables start again from null), whatever the store held before: the
    call returns [true] and installs the very key [setMasterPassword]
    derived. *)
Theorem verifyMasterPassword_after_setMasterPassword (password : jsstring) (w : World) :
  gcm_correct P -> gcm_octets P ->
  accepted 2 (putFaults w) = true ->
  fst (verifyMasterPassword password (restart (snd (setMasterPassword password w)))) = Ok true
  /\ masterCryptoKey
       (snd (verifyMasterPassword password (restart (snd (setMasterPassword password w)))))
     = masterCryptoKey (snd (setMasterPassword password w))
  /\ sessionState
       (snd (verifyMasterPassword password (restart (snd (setMasterPassword password w)))))
     = Unlocked.
Proof.
  intros Hc Ho Ha. rewrite setMasterPassword_run by exact Ha.
  cbn [snd]. unfold restart. cbn [appDataStore localStorage putFaults putLog rngPos masterCryptoKey].
  rewrite (verifyMasterPassword_sealed password _ (random_bytes (rngPos w) 16)
             (PBKDF2 (TextEncoder_encode password) (random_bytes (rngPos w) 16))
             (random_bytes (rngPos w + 16) 12) Ho);
    cbn [appDataStore localStorage].
  - rewrite (fun key pos =>
               sentinel_round_trip key (random_bytes pos 12) key Hc Ho
                 (random_bytes_length pos 12) (random_bytes_bytes pos 12) eq_refl).
    cbn [fst snd masterCryptoKey]. rewrite bool_decide_eq_true_2 by reflexivity.
    split; [reflexivity|]. split; reflexivity.
  - rewrite lookup_delete_ne by done. apply lookup_delete_eq.
  - apply lookup_delete_eq.
  - rewrite lookup_insert_ne by done. apply lookup_insert_eq.
  - apply lookup_insert_eq.
  - apply random_bytes_length.
  - apply random_bytes_bytes.
Qed.


(** X8.  [hasMasterPassword] answers [false], and changes nothing, when
    neither the object store nor localStorage has a verifier; after a
    [setMasterPassword] whose writes are accepted it answers [true]. *)
Theorem hasMasterPassword_setMasterPassword (password : jsstring) (w : World) :
  (appDataStore w !! STORAGE_KEY_PASS_VERIFIER = None ->
   localStorage w !! STORAGE_KEY_PASS_VERIFIER = None ->
   hasMasterPassword w = (Ok false, w))
  /\ (accepted 2 (putFaults w) = true ->
      fst (hasMasterPassword (snd (setMasterPassword password w))) = Ok true).
Proof.
  split.
  - intros Hs Hl. unfold hasMasterPassword.
    erewrite bind_ok by (apply migrateKey_nothing; exact Hl).
    destruct w as [k p store ls faults log pos]. cbn [appDataStore] in Hs.
    exec. now rewrite Hs.
  - intros Ha. rewrite setMasterPassword_run by exact Ha. cbn [snd].
    unfold hasMasterPassword.
    erewrite bind_ok
      by (apply migrateKey_nothing; cbn [localStorage];
          rewrite lookup_delete_ne by done; apply lookup_delete_eq).
    exec. now rewrite lookup_insert_eq.
Qed.

(** X9.  With no verifier left in localStorage, a [hasMasterPassword]
    that answers [false] has changed nothing, and the
    [verifyMasterPassword] that follows it returns [false] for every
    password. *)
Theorem hasMasterPassword_false_no_login (w : World) (password : jsstring) :
  localStorage w !! STORAGE_KEY_PASS_VERIFIER = None ->
  fst (hasMasterPassword w) = Ok false ->
  snd (hasMasterPassword w) = w
  /\ fst (verifyMasterPassword password (snd (hasMasterPassword w))) = Ok false.
Proof.
  intros Hl H.
  assert (Hrun : hasMasterPassword w
                 = (Ok (match default Undefined (appDataStore w !! STORAGE_KEY_PASS_VERIFIER) with
                        | Undefined => false
                        | _ => true
                        end), w)).
  { unfold hasMasterPassword.
    erewrite bind_ok by (apply migrateKey_nothing; exact Hl).
    now destruct w. }
  rewrite Hrun in H |- *. cbn [fst snd] in H |- *. split; [reflexivity|].
  assert (Hv : default Undefined
                 (appDataStore (credentialsRelocated password w) !! STORAGE_KEY_PASS_VERIFIER)
               = Undefined).
  { rewrite verifier_after_relocation, migrateKey_nothing by exact Hl. cbn [snd].
    destruct (default Undefined (appDataStore w !! STORAGE_KEY_PASS_VERIFIER));
      [reflexivity | discriminate | discriminate]. }
  unfold verifyMasterPassword. rewrite !after_relocation.
  destruct (credentialsRelocated password w) as [k p store ls faults log pos].
  cbn [appDataStore] in Hv. exec. now rewrite Hv.
Qed.

(** X10.  [verifyMasterPassword] never throws: whatever the store and
    localStorage hold, and whichever put requests are rejected, it returns
    a boolean.  A salt that is not a byte buffer, a verifier that is not
    base64 and a rejected decryption are all caught.  (The object store
    is taken to be open and readable.) *)
Theorem verifyMasterPassword_never_throws (password : jsstring) (w : World) :
  exists b, fst (verifyMasterPassword password w) = Ok b.
Proof.
  unfold verifyMasterPassword. rewrite !after_relocation.
  destruct (credentialsRelocated password w) as [k p store ls faults log pos].
  exec.
  destruct (truthy (default Undefined (store !! STORAGE_KEY_PASS_VERIFIER))); exec; [|eauto].
  destruct (default Undefined (store !! STORAGE_KEY_SALT)) as [|salt|[|c s]];
    cbn [truthy]; exec; eauto.
  - destruct (legacyDecrypt _ _); exec; eauto.
  - destruct (decryptData _ _); exec; eauto.
  - destruct (legacyDecrypt _ _); exec; eauto.
Qed.

End PasswordLifecycle.

(** ** Saving and loading *)

Section DataHelpers.
Context {P : Platform}.

(** The modern path of [loadData]: decrypt, parse, and report any failure
    as DataCorrupt; the state is the one the relocation left. *)
Lemma loadData_unlocked d w k :
  masterCryptoKey w = Some k ->
  truthy (dataRecord w) = true ->
  loadData_with d w
  = (match decryptData (ToString (dataRecord w)) k with
     | Ok jsonString =>
         match JSON_parse jsonString with
         | Some data => Ok data
         | None => Throw DataCorrupt
         end
     | Throw _ => Throw DataCorrupt
     end, snd (migrateKey STORAGE_KEY_DATA w)).
Proof.
  unfold dataRecord. intros Hk H.
  destruct (migrateKey_run STORAGE_KEY_DATA w) as (w1 & E & Hk1 & _).
  rewrite E in *. cbn [snd] in H |- *.
  unfold loadData_with. rewrite (bind_ok _ _ _ _ _ E).
  rewrite <- Hk1 in Hk.
  destruct w1 as [k1 p1 store ls faults log pos].
  cbn [appDataStore masterCryptoKey] in H, Hk |- *. subst k1.
  exec. rewrite H. exec.
  destruct (decryptData _ k) as [js|e]; exec; [|reflexivity].
  destruct (JSON_parse js); reflexivity.
Qed.

Lemma saveData_run data w k :
  masterCryptoKey w = Some k ->
  accepted 1 (putFaults w) = true ->
  saveData data w
  = (Ok tt,
     MkWorld (Some k) (masterPasswordForMigration w)
       (<[STORAGE_KEY_DATA :=
            VString (sealed k (random_bytes (rngPos w) 12) (JSON_stringify data))]>
          (appDataStore w))
       (localStorage w) (tail (putFaults w))
       (putLog w ++ [(STORAGE_KEY_DATA,
                      VString (sealed k (random_bytes (rngPos w) 12) (JSON_stringify data)))])
       (rngPos w + 12)%nat).
Proof.
  destruct w as [k0 p store ls faults log pos]. cbn [masterCryptoKey putFaults].
  intros -> Ha. exec. rewrite encryptData_run. exec.
  destruct faults as [|[] fs]; [reflexivity | discriminate | reflexivity].
Qed.

(** Reading back a data record sealed under the session key. *)
Lemma loadData_sealed d w k iv data :
  gcm_correct P -> gcm_octets P ->
  masterCryptoKey w = Some k ->
  localStorage w !! STORAGE_KEY_DATA = None ->
  appDataStore w !! STORAGE_KEY_DATA = Some (VString (sealed k iv (JSON_stringify data))) ->
  length iv = 12%nat -> Forall is_byte iv ->
  well_formed_utf16 (JSON_stringify data) -> hd 0 (JSON_stringify data) <> 0xFEFF ->
  loadData_with d w = (of_option DataCorrupt (JSON_parse (JSON_stringify data)), w).
Proof.
  intros Hc Ho Hk Hl Hs Hlen Hb Hwf Hbom.
  rewrite (loadData_unlocked d w k Hk); rewrite dataRecord_nothing by exact Hl; rewrite Hs;
    cbn [default from_option id ToString]; [|now apply sealed_truthy].
  rewrite migrateKey_nothing by exact Hl. cbn [snd].
  rewrite decryptData_sealed by (try done; now apply well_formed_code_units).
  rewrite Hc, TextDecoder_TextEncoder by done.
  now destruct (JSON_parse _).
Qed.

End DataHelpers.

Section DataProperties.
Context {P : Platform}.

(** X11.  In an unlocked session, what [saveData] stored is what
    [loadData] returns: the write is accepted, nothing stale is left in
    localStorage under the data key, and the platform's JSON reads back
    the document it wrote. *)
Theorem loadData_after_saveData (d : list json) (data : json) (w : World) (k : CryptoKey) :
  gcm_correct P -> gcm_octets P ->
  masterCryptoKey w = Some k ->
  accepted 1 (putFaults w) = true ->
  localStorage w !! STORAGE_KEY_DATA = None ->
  well_formed_utf16 (JSON_stringify data) -> hd 0 (JSON_stringify data) <> 0xFEFF ->
  JSON_parse (JSON_stringify data) = Some data ->
  fst (saveData data w) = Ok tt
  /\ loadData_with d (snd (saveData data w)) = (Ok data, snd (saveData data w)).
Proof.
  intros Hc Ho Hk Ha Hl Hwf Hbom Hjson.
  rewrite (saveData_run data w k Hk Ha). cbn [fst snd]. split; [reflexivity|].
  rewrite (loadData_sealed d _ k (random_bytes (rngPos w) 12) data Hc Ho);
    cbn [appDataStore localStorage masterCryptoKey];
    first [ now rewrite Hjson | apply lookup_insert_eq | apply random_bytes_length
          | apply random_bytes_bytes | done ].
Qed.

(** X12.  When the object store rejects the write, [saveData] rethrows
    the store's error, and the stored records, localStorage and the
    session key are as before the call. *)
Theorem saveData_rejected_write (data : json) (w : World) (k : CryptoKey) (faults : list bool) :
  masterCryptoKey w = Some k ->
  putFaults w = true :: faults ->
  fst (saveData data w) = Throw DBRequestError
  /\ appDataStore (snd (saveData data w)) = appDataStore w
  /\ localStorage (snd (saveData data w)) = localStorage w
  /\ masterCryptoKey (snd (saveData data w)) = Some k.
Proof.
  destruct w as [k0 p store ls fs log pos]. cbn [masterCryptoKey putFaults].
  intros -> ->. exec. rewrite encryptData_run. exec.
  repeat (split; [reflexivity|]). reflexivity.
Qed.

(** X13.  Outside the migration, [loadData] changes nothing beyond the
    relocation of a record left in localStorage: in a session that is not
    LegacyVerified the state it leaves, whether it returns or throws, is
    the state [migrateKey] leaves; with nothing to relocate the state is
    unchanged. *)
Theorem loadData_read_only (d : list json) (w : World) :
  sessionState w <> LegacyVerified ->
  snd (loadData_with d w) = snd (migrateKey STORAGE_KEY_DATA w)
  /\ (localStorage w !! STORAGE_KEY_DATA = None -> snd (loadData_with d w) = w).
Proof.
  intros Hst.
  assert (Hmain : snd (loadData_with d w) = snd (migrateKey STORAGE_KEY_DATA w)).
  { destruct (truthy (dataRecord w)) eqn:Ht.
    - destruct (masterCryptoKey w) as [k|] eqn:Hk.
      + now rewrite (loadData_unlocked d w k Hk Ht).
      + rewrite loadData_no_key; try done.
        apply sessionState_Locked. unfold sessionState in *. rewrite Hk in *.
        now destruct (masterPasswordForMigration w) as [[|]|].
    - now rewrite loadData_absent. }
  split; [exact Hmain|]. intros Hl. rewrite Hmain. now rewrite migrateKey_nothing.
Qed.



End DataProperties.

(** ** The migration and the next run *)

Section Relogin.
Context {P : Platform}.

(** A later run of the application on a store that holds a salt, and a
    verifier and a data record sealed under the key of [password] and that
    salt: the login succeeds and the document is read back. *)
Lemma relogin_and_load d w password salt iv1 iv2 data :
  gcm_correct P -> gcm_octets P ->
  localStorage w !! STORAGE_KEY_PASS_VERIFIER = None ->
  localStorage w !! STORAGE_KEY_SALT = None ->
  localStorage w !! STORAGE_KEY_DATA = None ->
  appDataStore w !! STORAGE_KEY_SALT = Some (VBytes salt) ->
  appDataStore w !! STORAGE_KEY_PASS_VERIFIER
    = Some (VString (sealed (PBKDF2 (TextEncoder_encode password) salt) iv2
                       (str "password_is_correct"))) ->
  appDataStore w !! STORAGE_KEY_DATA
    = Some (VString (sealed (PBKDF2 (TextEncoder_encode password) salt) iv1
                       (JSON_stringify data))) ->
  length iv1 = 12%nat -> Forall is_byte iv1 ->
  length iv2 = 12%nat -> Forall is_byte iv2 ->
  well_formed_utf16 (JSON_stringify data) -> hd 0 (JSON_stringify data) <> 0xFEFF ->
  JSON_parse (JSON_stringify data) = Some data ->
  fst (verifyMasterPassword password (restart w)) = Ok true
  /\ fst (loadData_with d (snd (verifyMasterPassword password (restart w)))) = Ok data.
Proof.
  intros Hc Ho Hlv Hls Hld Hs Hv Hd L1 B1 L2 B2 Hwf Hbom Hjson.
  rewrite (verifyMasterPassword_sealed password (restart w) salt
             (PBKDF2 (TextEncoder_encode password) salt) iv2 Ho); try assumption.
  rewrite (sentinel_round_trip _ iv2 _ Hc Ho L2 B2 eq_refl).
  cbn [fst snd]. split; [now rewrite bool_decide_eq_true_2|].
  rewrite (loadData_sealed d _ (PBKDF2 (TextEncoder_encode password) salt) iv1 data Hc Ho);
    cbn [masterCryptoKey localStorage appDataStore restart]; try assumption; try reflexivity.
  now rewrite Hjson.
Qed.

End Relogin.

Section Migration.
Context {P : Platform}.

(** The state the migration reaches when its three writes are accepted. *)
Lemma loadData_migration_run (d : list json) (w : World)
    (pw : jsstring) (js : jsstring) (data : json) :
  sessionState w = LegacyVerified ->
  masterPasswordForMigration w = Some pw ->
  localStorage w !! STORAGE_KEY_DATA = None ->
  truthy (dataRecord w) = true ->
  legacyDecrypt (ToString (dataRecord w)) pw = Ok js ->
  JSON_parse js = Some data ->
  accepted 3 (putFaults w) = true ->
  loadData_with d w
  = (Ok data,
     MkWorld
       (Some (PBKDF2 (TextEncoder_encode pw) (random_bytes (rngPos w) 16)))
       (Some pw)
       (<[STORAGE_KEY_PASS_VERIFIER :=
            VString (sealed (PBKDF2 (TextEncoder_encode pw) (random_bytes (rngPos w) 16))
                       (random_bytes (rngPos w + 16 + 12) 12) (str "password_is_correct"))]>
          (<[STORAGE_KEY_SALT := VBytes (random_bytes (rngPos w) 16)]>
             (<[STORAGE_KEY_DATA :=
                  VString (sealed (PBKDF2 (TextEncoder_encode pw) (random_bytes (rngPos w) 16))
                             (random_bytes (rngPos w + 16) 12) (JSON_stringify data))]>
                (appDataStore w))))
       (localStorage w)
       (tail (tail (tail (putFaults w))))
       (putLog w ++
          [(STORAGE_KEY_DATA,
            VString (sealed (PBKDF2 (TextEncoder_encode pw) (random_bytes (rngPos w) 16))
                       (random_bytes (rngPos w + 16) 12) (JSON_stringify data)));
           (STORAGE_KEY_SALT, VBytes (random_bytes (rngPos w) 16));
           (STORAGE_KEY_PASS_VERIFIER,
            VString (sealed (PBKDF2 (TextEncoder_encode pw) (random_bytes (rngPos w) 16))
                       (random_bytes (rngPos w + 16 + 12) 12) (str "password_is_correct")))])
       (rngPos w + 16 + 12 + 12)%nat).
Proof.
  intros Hstate Hp Hl. apply sessionState_LegacyVerified in Hstate as (Hk & c & pw' & Hp').
  rewrite Hp in Hp'. injection Hp' as ->.
  rewrite dataRecord_nothing by exact Hl. intros Ht Hdec Hparse Ha.
  unfold loadData_with. erewrite bind_ok by (apply migrateKey_nothing; exact Hl).
  destruct w as [k p store ls fs log pos].
  cbn [masterCryptoKey masterPasswordForMigration appDataStore putFaults rngPos localStorage
       putLog] in Hk, Hp, Ht, Hdec, Ha |- *.
  subst k p.
  exec. rewrite Ht. exec. rewrite Hdec. exec. rewrite Hparse. exec.
  rewrite encryptData_run. exec.
  destruct fs as [|[] [|[] [|[] fs]]]; try discriminate; exec;
    rewrite encryptData_run; exec; rewrite <- !app_assoc; reflexivity.
Qed.

(** X16.  The migration, when the legacy record decrypts and parses and
    the store accepts the three writes: [loadData] returns the document,
    the session is Unlocked under a key derived from the held password and
    a new salt, and the store holds the document sealed under that key
    beside the new salt and a verifier sealed under the same key. *)
Theorem loadData_migration_succeeds (d : list json) (w : World)
    (pw : jsstring) (js : jsstring) (data : json) :
  sessionState w = LegacyVerified ->
  masterPasswordForMigration w = Some pw ->
  localStorage w !! STORAGE_KEY_DATA = None ->
  truthy (dataRecord w) = true ->
  legacyDecrypt (ToString (dataRecord w)) pw = Ok js ->
  JSON_parse js = Some data ->
  accepted 3 (putFaults w) = true ->
  fst (loadData_with d w) = Ok data
  /\ sessionState (snd (loadData_with d w)) = Unlocked
  /\ masterCryptoKey (snd (loadData_with d w))
     = Some (PBKDF2 (TextEncoder_encode pw) (random_bytes (rngPos w) 16))
  /\ appDataStore (snd (loadData_with d w)) !! STORAGE_KEY_SALT
     = Some (VBytes (random_bytes (rngPos w) 16))
  /\ appDataStore (snd (loadData_with d w)) !! STORAGE_KEY_PASS_VERIFIER
     = Some (VString
               (sealed (PBKDF2 (TextEncoder_encode pw) (random_bytes (rngPos w) 16))
                  (random_bytes (rngPos w + 16 + 12) 12) (str "password_is_correct")))
  /\ appDataStore (snd (loadData_with d w)) !! STORAGE_KEY_DATA
     = Some (VString
               (sealed (PBKDF2 (TextEncoder_encode pw) (random_bytes (rngPos w) 16))
                  (random_bytes (rngPos w + 16) 12) (JSON_stringify data)))
  /\ (forall key, key <> STORAGE_KEY_SALT -> key <> STORAGE_KEY_PASS_VERIFIER ->
        key <> STORAGE_KEY_DATA ->
        appDataStore (snd (loadData_with d w)) !! key = appDataStore w !! key)
  /\ localStorage (snd (loadData_with d w)) = localStorage w.
Proof.
  intros Hstate Hp Hl Ht Hdec Hparse Ha.
  rewrite (loadData_migration_run d w pw js data) by assumption.
  cbn [fst snd masterCryptoKey appDataStore localStorage].
  split; [reflexivity|]. split; [reflexivity|]. split; [reflexivity|].
  split; [rewrite lookup_insert_ne by done; apply lookup_insert_eq|].
  split; [apply lookup_insert_eq|].
  split; [rewrite !lookup_insert_ne by done; apply lookup_insert_eq|].
  split; [|reflexivity].
  intros key H1 H2 H3. now rewrite !lookup_insert_ne by done.
Qed.

(** X17.  After a migration the vault is a modern one: in the next run
    of the application the same password logs in through the key
    derivation, and [loadData] returns the migrated document. *)
Theorem login_after_migration (d : list json) (w : World)
    (pw : jsstring) (js : jsstring) (data : json) :
  gcm_correct P -> gcm_octets P ->
  sessionState w = LegacyVerified ->
  masterPasswordForMigration w = Some pw ->
  localStorage w !! STORAGE_KEY_PASS_VERIFIER = None ->
  localStorage w !! STORAGE_KEY_SALT = None ->
  localStorage w !! STORAGE_KEY_DATA = None ->
  truthy (dataRecord w) = true ->
  legacyDecrypt (ToString (dataRecord w)) pw = Ok js ->
  JSON_parse js = Some data ->
  accepted 3 (putFaults w) = true ->
  well_formed_utf16 (JSON_stringify data) -> hd 0 (JSON_stringify data) <> 0xFEFF ->
  JSON_parse (JSON_stringify data) = Some data ->
  fst (verifyMasterPassword pw (restart (snd (loadData_with d w)))) = Ok true
  /\ fst (loadData_with d
            (snd (verifyMasterPassword pw (restart (snd (loadData_with d w)))))) = Ok data.
Proof.
  intros Hc Ho Hstate Hp Hlv Hls Hld Ht Hdec Hparse Ha Hwf Hbom Hjson.
  rewrite (loadData_migration_run d w pw js data) by assumption. cbn [snd].
  eapply (relogin_and_load d _ pw (random_bytes (rngPos w) 16)
            (random_bytes (rngPos w + 16) 12) (random_bytes (rngPos w + 16 + 12) 12) data);
    try assumption; cbn [appDataStore localStorage];
    try apply random_bytes_length; try apply random_bytes_bytes.
  - rewrite lookup_insert_ne by done. apply lookup_insert_eq.
  - apply lookup_insert_eq.
  - rewrite !lookup_insert_ne by done. apply lookup_insert_eq.
Qed.

End Migration.

Section Lifecycle.
Context {P : Platform}.

(** X18.  The vault across two runs of the application: after
    [setMasterPassword] and [saveData], a later run in which
    [verifyMasterPassword] is given the same password logs in, and
    [loadData] returns the document that was saved. *)
Theorem saved_data_survives_restart (d : list json) (password : jsstring)
    (data : json) (w : World) :
  gcm_correct P -> gcm_octets P ->
  accepted 3 (putFaults w) = true ->
  localStorage w !! STORAGE_KEY_DATA = None ->
  well_formed_utf16 (JSON_stringify data) -> hd 0 (JSON_stringify data) <> 0xFEFF ->
  JSON_parse (JSON_stringify data) = Some data ->
  fst (setMasterPassword password w) = Ok tt
  /\ fst (saveData data (snd (setMasterPassword password w))) = Ok tt
  /\ fst (verifyMasterPassword password
            (restart (snd (saveData data (snd (setMasterPassword password w)))))) = Ok true
  /\ fst (loadData_with d
            (snd (verifyMasterPassword password
                    (restart (snd (saveData data (snd (setMasterPassword password w))))))))
     = Ok data.
Proof.
  intros Hc Ho Ha Hl Hwf Hbom Hjson.
  assert (Ha2 : accepted 2 (putFaults w) = true /\ accepted 1 (tail (tail (putFaults w))) = true).
  { destruct (putFaults w) as [|[] [|[] [|[] fs]]]; try discriminate; split; reflexivity. }
  destruct Ha2 as [Ha2 Ha1].
  rewrite (setMasterPassword_run password w Ha2). cbn [fst snd].
  split; [reflexivity|].
  erewrite saveData_run; [|reflexivity | exact Ha1]. cbn [fst snd].
  split; [reflexivity|].
  cbn [masterCryptoKey masterPasswordForMigration appDataStore localStorage putFaults
       putLog rngPos].
  apply (relogin_and_load d _ password (random_bytes (rngPos w) 16)
           (random_bytes (rngPos w + 16 + 12) 12) (random_bytes (rngPos w + 16) 12) data);
    try assumption; cbn [appDataStore localStorage];
    try apply random_bytes_length; try apply random_bytes_bytes.
  - rewrite lookup_delete_ne by done. apply lookup_delete_eq.
  - apply lookup_delete_eq.
  - now rewrite !lookup_delete_ne by done.
  - rewrite !lookup_insert_ne by done. apply lookup_insert_eq.
  - rewrite lookup_insert_ne by done. apply lookup_insert_eq.
  - apply lookup_insert_eq.
Qed.

(** X19.  [setMasterPassword] writes the salt before the verifier and
    does not undo a write.  When the store rejects the salt, the call
    throws the store's error and the stored records are as before; when it
    accepts the salt and rejects the verifier, the call throws, and the
    store holds the new salt beside whatever verifier it held.  In both
    cases the session already holds the new key, and localStorage is
    untouched. *)
Theorem setMasterPassword_rejected_write (password : jsstring) (w : World)
    (faults : list bool) :
  (putFaults w = true :: faults ->
   fst (setMasterPassword password w) = Throw DBRequestError
   /\ appDataStore (snd (setMasterPassword password w)) = appDataStore w)
  /\ (putFaults w = false :: true :: faults ->
      fst (setMasterPassword password w) = Throw DBRequestError
      /\ appDataStore (snd (setMasterPassword password w))
         = <[STORAGE_KEY_SALT := VBytes (random_bytes (rngPos w) 16)]> (appDataStore w))
  /\ (accepted 2 (putFaults w) = false ->
      masterCryptoKey (snd (setMasterPassword password w))
      = Some (PBKDF2 (TextEncoder_encode password) (random_bytes (rngPos w) 16))
      /\ localStorage (snd (setMasterPassword password w)) = localStorage w).
Proof.
  destruct w as [k p store ls fs log pos]. cbn [putFaults appDataStore rngPos localStorage].
  unfold setMasterPassword. exec. rewrite encryptData_run. exec.
  split; [|split].
  - intros ->. exec. split; reflexivity.
  - intros ->. exec. split; reflexivity.
  - destruct fs as [|[] [|[] fs]]; try discriminate; intros _; exec; split; reflexivity.
Qed.

End Lifecycle.

Section Edges.
Context {P : Platform}.

(** A salt left in localStorage reaches the object store as a string
    when the relocations are accepted. *)
Lemma salt_relocated password w v :
  localStorage w !! STORAGE_KEY_SALT = Some v ->
  accepted 2 (putFaults w) = true ->
  appDataStore (credentialsRelocated password w) !! STORAGE_KEY_SALT = Some (VString v).
Proof.
  destruct w as [k p store ls faults log pos]. cbn [localStorage putFaults].
  intros Hs Ha. unfold credentialsRelocated, migrateKey. exec.
  destruct (ls !! STORAGE_KEY_PASS_VERIFIER) as [x|].
  - destruct faults as [|[] [|[] fs]]; try discriminate; exec;
      rewrite lookup_delete_ne by done; rewrite Hs; exec; apply lookup_insert_eq.
  - exec. rewrite Hs. destruct faults as [|[] fs]; try discriminate; exec;
      apply lookup_insert_eq.
Qed.

(** X20.  A salt that an older release left in localStorage is relocated
    as a string, and [deriveKey] takes only a byte buffer: once the
    relocation is accepted, [verifyMasterPassword] returns [false] for
    every password, and the session key is not touched. *)
Theorem verifyMasterPassword_relocated_salt (password : jsstring) (w : World)
    (c : Z) (s : jsstring) :
  localStorage w !! STORAGE_KEY_SALT = Some (c :: s) ->
  accepted 2 (putFaults w) = true ->
  fst (verifyMasterPassword password w) = Ok false
  /\ masterCryptoKey (snd (verifyMasterPassword password w)) = masterCryptoKey w
  /\ appDataStore (snd (verifyMasterPassword password w)) !! STORAGE_KEY_SALT
     = Some (VString (c :: s)).
Proof.
  intros Hl Ha.
  pose proof (salt_relocated password w (c :: s) Hl Ha) as Hs.
  pose proof (credentialsRelocated_key password w) as [Hk _].
  unfold verifyMasterPassword. rewrite !after_relocation.
  destruct (credentialsRelocated password w) as [k p store ls faults log pos].
  cbn [appDataStore masterCryptoKey] in Hs, Hk.
  exec. rewrite Hs. cbn [default from_option id truthy].
  destruct (truthy (default Undefined (store !! STORAGE_KEY_PASS_VERIFIER))); exec; auto.
Qed.

(** X21.  A migration that fails before it derives a key changes
    nothing: when the legacy record does not decrypt, or decrypts to
    something [JSON.parse] rejects, [loadData] throws "Failed to migrate
    legacy data.", and the session is still LegacyVerified with the
    records as the relocation left them. *)
Theorem loadData_migration_unreadable (d : list json) (w : World) (pw : jsstring) :
  sessionState w = LegacyVerified ->
  masterPasswordForMigration w = Some pw ->
  truthy (dataRecord w) = true ->
  (exists e, legacyDecrypt (ToString (dataRecord w)) pw = Throw e)
  \/ (exists js, legacyDecrypt (ToString (dataRecord w)) pw = Ok js /\ JSON_parse js = None) ->
  loadData_with d w = (Throw MigrationFailed, snd (migrateKey STORAGE_KEY_DATA w))
  /\ sessionState (snd (loadData_with d w)) = LegacyVerified.
Proof.
  intros Hstate Hp.
  pose proof Hstate as Hstate0.
  apply sessionState_LegacyVerified in Hstate as (Hk & c & pw' & Hp').
  rewrite Hp in Hp'. injection Hp' as ->.
  unfold dataRecord. intros Ht Hfail.
  destruct (migrateKey_run STORAGE_KEY_DATA w) as (w1 & E & Hk1 & Hp1 & _).
  rewrite E in *. cbn [snd] in Ht, Hfail |- *.
  assert (Hstate1 : sessionState w1 = LegacyVerified).
  { unfold sessionState in *. now rewrite Hk1, Hp1. }
  rewrite <- Hk1 in Hk. rewrite <- Hp1 in Hp. clear Hk1 Hp1.
  unfold loadData_with. rewrite (bind_ok _ _ _ _ _ E). clear E.
  destruct w1 as [k p store ls fs log pos].
  cbn [masterCryptoKey masterPasswordForMigration appDataStore] in Hk, Hp, Ht, Hfail.
  subst k p.
  exec. rewrite Ht. exec.
  destruct Hfail as [[e He] | (js & He & Hj)]; rewrite He; exec.
  - split; [reflexivity | exact Hstate1].
  - rewrite Hj. exec. split; [reflexivity | exact Hstate1].
Qed.

End Edges.

(** ** [chunkText] *)

Section ChunkText.
Variable text : jsstring.
Variables chunkSize overlap : Z.

Lemma chunkText_loop_exit fuel i acc :
  Z.of_nat (length text) <= i ->
  chunkText_loop (S fuel) text chunkSize overlap i acc = Some acc.
Proof.
  intros H. cbn [chunkText_loop]. now rewrite (proj2 (Z.ltb_ge i (Z.of_nat (length text)))) by lia.
Qed.

Lemma chunkText_loop_step fuel i acc :
  i < Z.of_nat (length text) ->
  chunkText_loop (S fuel) text chunkSize overlap i acc
  = chunkText_loop fuel text chunkSize overlap
      (if i + chunkSize >=? Z.of_nat (length text)
       then Z.of_nat (length text) else i + (chunkSize - overlap))
      (acc ++ [slice text i (Z.min (i + chunkSize) (Z.of_nat (length text)))]).
Proof.
  intros H. cbn [chunkText_loop]. rewrite (proj2 (Z.ltb_lt i (Z.of_nat (length text)))) by lia.
  cbv zeta. replace (i + (chunkSize - overlap) + overlap) with (i + chunkSize) by lia.
  reflexivity.
Qed.

Lemma chunkText_loop_acc fuel : forall i acc,
  chunkText_loop fuel text chunkSize overlap i acc
  = (acc ++.) <$> chunkText_loop fuel text chunkSize overlap i [].
Proof.
  induction fuel as [|fuel IH]; intros i acc; [reflexivity|].
  destruct (Z.lt_ge_cases i (Z.of_nat (length text))) as [H|H].
  - rewrite !chunkText_loop_step by exact H.
    rewrite IH. rewrite (IH _ ([] ++ _)).
    destruct (chunkText_loop fuel text chunkSize overlap _ []) as [r|]; cbn; [|reflexivity].
    now rewrite <- app_assoc.
  - rewrite !chunkText_loop_exit by exact H. cbn. now rewrite app_nil_r.
Qed.

Lemma slice_chunk i :
  0 <= i <= Z.of_nat (length text) -> 0 <= chunkSize ->
  slice text i (Z.min (i + chunkSize) (Z.of_nat (length text)))
  = take (Z.to_nat chunkSize) (drop (Z.to_nat i) text).
Proof.
  intros Hi Hc. unfold slice.
  rewrite (proj2 (Z.ltb_ge i 0)) by lia.
  rewrite (proj2 (Z.ltb_ge (Z.min (i + chunkSize) (Z.of_nat (length text))) 0)) by lia.
  rewrite (Z.min_l i (Z.of_nat (length text))) by lia.
  rewrite (Z.min_l _ (Z.of_nat (length text))) by lia.
  destruct (Z.le_ge_cases (i + chunkSize) (Z.of_nat (length text))) as [H|H].
  - rewrite Z.min_l by lia. f_equal. lia.
  - rewrite Z.min_r by lia.
    rewrite !take_ge; [reflexivity | |]; rewrite length_drop; lia.
Qed.

(** The loop with [overlap < chunkSize] leaves after at most one test per
    code unit still ahead, and one more. *)
Lemma chunkText_loop_terminates fuel : forall i,
  overlap < chunkSize ->
  (Z.to_nat (Z.of_nat (length text) - i) < fuel)%nat ->
  exists r, chunkText_loop fuel text chunkSize overlap i [] = Some r.
Proof.
  induction fuel as [|fuel IH]; intros i Hov Hf; [lia|].
  destruct (Z.lt_ge_cases i (Z.of_nat (length text))) as [H|H].
  - rewrite chunkText_loop_step by exact H. rewrite chunkText_loop_acc.
    destruct (IH (if i + chunkSize >=? Z.of_nat (length text) then Z.of_nat (length text) else i + (chunkSize - overlap)) Hov)
      as [r ->].
    + destruct (i + chunkSize >=? Z.of_nat (length text)); lia.
    + cbn. eauto.
  - rewrite chunkText_loop_exit by exact H. eauto.
Qed.

(** More fuel does not change a result. *)
Lemma chunkText_loop_fuel fuel : forall fuel' i acc r,
  (fuel <= fuel')%nat ->
  chunkText_loop fuel text chunkSize overlap i acc = Some r ->
  chunkText_loop fuel' text chunkSize overlap i acc = Some r.
Proof.
  induction fuel as [|fuel IH]; intros fuel' i acc r Hf H; [discriminate|].
  destruct fuel' as [|fuel']; [lia|].
  destruct (Z.lt_ge_cases i (Z.of_nat (length text))) as [Hi|Hi].
  - rewrite chunkText_loop_step in H |- * by exact Hi. apply (IH fuel'); [lia | exact H].
  - rewrite chunkText_loop_exit in H |- * by exact Hi. exact H.
Qed.

(** What the loop pushes from position [i] on: the chunk number [k] starts
    [k] steps after [i], inside the text; a chunk that is followed by
    another one ends inside the text; glued, the chunks give the text from
    [i] on. *)
Lemma chunkText_loop_sound fuel : forall i r,
  0 <= overlap < chunkSize -> 0 <= i ->
  chunkText_loop fuel text chunkSize overlap i [] = Some r ->
  join_chunks overlap r = drop (Z.to_nat i) text
  /\ forall k c, r !! k = Some c ->
       i + Z.of_nat k * (chunkSize - overlap) < Z.of_nat (length text)
       /\ c = take (Z.to_nat chunkSize)
                (drop (Z.to_nat (i + Z.of_nat k * (chunkSize - overlap))) text)
       /\ (is_Some (r !! S k) ->
           i + Z.of_nat k * (chunkSize - overlap) + chunkSize < Z.of_nat (length text)).
Proof.
  induction fuel as [|fuel IH]; intros i r Hov Hi H; [discriminate|].
  destruct (Z.lt_ge_cases i (Z.of_nat (length text))) as [Hlt|Hge].
  - rewrite chunkText_loop_step in H by exact Hlt. rewrite chunkText_loop_acc in H.
    rewrite slice_chunk in H by lia.
    destruct (chunkText_loop fuel text chunkSize overlap _ []) as [r'|] eqn:E; [|discriminate].
    cbn in H. injection H as <-.
    destruct (Z.geb_spec (i + chunkSize) (Z.of_nat (length text))) as [Hend|Hend].
    + (* the chunk reaches the end of the text *)
      apply IH in E as [_ E]; [|lia|lia].
      assert (r' = []) as ->.
      { destruct r' as [|c' r']; [reflexivity|]. destruct (E 0%nat c' eq_refl). lia. }
      split.
      * cbn. rewrite app_nil_r. apply take_ge. rewrite length_drop. lia.
      * intros [|k] c; [|discriminate]. intros [= <-]. cbn [Z.of_nat].
        split; [lia|]. split; [do 2 f_equal; lia|]. intros [? ?]. discriminate.
    + (* another chunk follows *)
      apply IH in E as [Hjoin E]; [|lia|lia].
      destruct r' as [|c' r'].
      { cbn in Hjoin. symmetry in Hjoin. apply (f_equal length) in Hjoin.
        rewrite length_drop in Hjoin. cbn in Hjoin. lia. }
      destruct (E 0%nat c' eq_refl) as (_ & Hc' & _).
      split.
      * cbn [join_chunks flat_map] in Hjoin |- *.
        assert (Hl : (Z.to_nat overlap <= length c')%nat).
        { rewrite Hc', length_take, length_drop. lia. }
        rewrite <- (drop_app_le _ _ _ Hl), Hjoin, drop_drop.
        replace (Z.to_nat (i + (chunkSize - overlap)) + Z.to_nat overlap)%nat
          with (Z.to_nat i + Z.to_nat chunkSize)%nat by lia.
        rewrite <- drop_drop. apply take_drop.
      * intros [|k] c.
        -- intros [= <-]. cbn [Z.of_nat]. split; [lia|]. split; [do 2 f_equal; lia|].
           intros _. lia.
        -- intros Hk. cbn in Hk. destruct (E k c Hk) as (H1 & H2 & H3).
           split; [lia|]. split.
           ++ rewrite H2. do 3 f_equal. lia.
           ++ intros Hs. cbn in Hs. specialize (H3 Hs). lia.
  - rewrite chunkText_loop_exit in H by exact Hge. injection H as <-.
    split; [|intros k c; discriminate].
    cbn. symmetry. apply drop_ge. lia.
Qed.


End ChunkText.

Section ChunkTextProperties.

Lemma slice_clamp s start fin :
  0 <= fin -> slice s start fin = slice s start (Z.min fin (Z.of_nat (length s))).
Proof.
  intros H. unfold slice.
  rewrite (proj2 (Z.ltb_ge fin 0)) by lia.
  rewrite (proj2 (Z.ltb_ge (Z.min fin (Z.of_nat (length s))) 0)) by lia.
  now rewrite <- Z.min_assoc, Z.min_id.
Qed.

(** X22.  With [0 <= overlap < chunkSize], [chunkText] returns, more fuel
    gives the same chunks, and the chunks cover the text: the first one
    followed by the others without the [overlap] code units each repeats
    is the text. *)
Theorem chunkText_covers_text (text : jsstring) (chunkSize overlap : Z) :
  0 <= overlap < chunkSize ->
  exists chunks,
    chunkText text chunkSize overlap = Some chunks
    /\ (forall fuel, (S (length text) <= fuel)%nat ->
          chunkText_fuel fuel text chunkSize overlap = Some chunks)
    /\ join_chunks overlap chunks = text.
Proof.
  intros Hov. unfold chunkText, chunkText_fuel.
  destruct (chunkText_loop_terminates text chunkSize overlap (S (length text)) 0)
    as [r Hr]; [lia | lia |].
  exists r. split; [exact Hr|]. split.
  - intros fuel Hf. eapply chunkText_loop_fuel; [exact Hf | exact Hr].
  - apply chunkText_loop_sound in Hr as [Hjoin _]; [|exact Hov | lia]. exact Hjoin.
Qed.

(** X23.  With [0 <= overlap < chunkSize], [chunkText] returns, and the
    chunk number [k] is the slice of the text that starts
    [k * (chunkSize - overlap)] code units in and is [chunkSize] long; it
    is not empty, and only the last chunk can be shorter than
    [chunkSize]. *)
Theorem chunkText_chunks (text : jsstring) (chunkSize overlap : Z) :
  0 <= overlap < chunkSize ->
  exists chunks,
    chunkText text chunkSize overlap = Some chunks
    /\ forall k c,
         chunks !! k = Some c ->
         c = slice text (Z.of_nat k * (chunkSize - overlap))
               (Z.of_nat k * (chunkSize - overlap) + chunkSize)
         /\ 1 <= Z.of_nat (length c) <= chunkSize
         /\ (is_Some (chunks !! S k) -> Z.of_nat (length c) = chunkSize).
Proof.
  intros Hov. unfold chunkText, chunkText_fuel.
  destruct (chunkText_loop_terminates text chunkSize overlap (S (length text)) 0)
    as [chunks Hr]; [lia | lia |].
  exists chunks. split; [exact Hr|]. intros k c Hk.
  apply chunkText_loop_sound in Hr as [_ Hr]; [|exact Hov | lia].
  destruct (Hr k c Hk) as (Hpos & Hc & Hnext). rewrite Z.add_0_l in *.
  assert (Hstart : 0 <= Z.of_nat k * (chunkSize - overlap)) by nia.
  assert (Hlen : Z.of_nat (length c)
                 = Z.min chunkSize
                     (Z.of_nat (length text) - Z.of_nat k * (chunkSize - overlap))).
  { rewrite Hc, length_take, length_drop. lia. }
  split; [|split].
  - rewrite slice_clamp by lia. rewrite slice_chunk by lia. exact Hc.
  - lia.
  - intros Hs. specialize (Hnext Hs). lia.
Qed.



End ChunkTextProperties.

(** ** The vector store *)

Section VectorStore.
Context {number : Type}.
Implicit Types (store : Vector.vectorStore number) (chunk : Vector.VectorChunk number).

Lemma elem_of_getVectorChunksByCharacter character store chunk :
  chunk ∈ Vector.getVectorChunksByCharacter character store
  <-> (exists key, store !! key = Some chunk) /\ Vector.characterId chunk = character.
Proof.
  unfold Vector.getVectorChunksByCharacter.
  rewrite list_elem_of_filter, list_elem_of_fmap. split.
  - intros [Hc ([key c] & -> & Hin)]. apply elem_of_map_to_list in Hin. eauto.
  - intros [[key Hk] Hc]. split; [exact Hc|].
    exists (key, chunk). split; [reflexivity|]. now apply elem_of_map_to_list.
Qed.

Lemma saveVectorChunks_lookup_other chunks : forall store key,
  key ∉ Vector.id <$> chunks ->
  Vector.saveVectorChunks chunks store !! key = store !! key.
Proof.
  induction chunks as [|c chunks IH]; intros store key Hk; [reflexivity|].
  cbn in Hk |- *. apply not_elem_of_cons in Hk as [Hne Hk].
  unfold Vector.saveVectorChunks in *. cbn [foldl]. rewrite IH by exact Hk.
  now rewrite lookup_insert_ne.
Qed.

Lemma saveVectorChunks_lookup_saved chunks : forall store chunk,
  NoDup (Vector.id <$> chunks) -> chunk ∈ chunks ->
  Vector.saveVectorChunks chunks store !! Vector.id chunk = Some chunk.
Proof.
  induction chunks as [|c chunks IH]; intros store chunk Hnd Hin.
  - now apply elem_of_nil in Hin.
  - cbn in Hnd. apply NoDup_cons in Hnd as [Hc Hnd].
    apply elem_of_cons in Hin as [-> | Hin].
    + change (Vector.saveVectorChunks (c :: chunks) store)
        with (Vector.saveVectorChunks chunks (<[Vector.id c := c]> store)).
      rewrite saveVectorChunks_lookup_other by exact Hc. apply lookup_insert_eq.
    + change (Vector.saveVectorChunks (c :: chunks) store)
        with (Vector.saveVectorChunks chunks (<[Vector.id c := c]> store)).
      now apply IH.
Qed.

Lemma saveVectorChunks_lookup_inv chunks : forall store key chunk,
  Vector.saveVectorChunks chunks store !! key = Some chunk ->
  (chunk ∈ chunks /\ Vector.id chunk = key) \/ store !! key = Some chunk.
Proof.
  induction chunks as [|c chunks IH]; intros store key chunk H; [now right|].
  change (Vector.saveVectorChunks (c :: chunks) store)
    with (Vector.saveVectorChunks chunks (<[Vector.id c := c]> store)) in H.
  apply IH in H as [[Hin Hid] | H].
  - left. split; [now apply elem_of_cons; right | exact Hid].
  - destruct (decide (Vector.id c = key)) as [<-|Hne].
    + rewrite lookup_insert_eq in H. injection H as <-. left. split; [apply elem_of_cons; now left | reflexivity].
    + rewrite lookup_insert_ne in H by exact Hne. now right.
Qed.

Lemma keyed_saveVectorChunks chunks store :
  Vector.keyed store -> Vector.keyed (Vector.saveVectorChunks chunks store).
Proof.
  intros Hk key chunk H. apply saveVectorChunks_lookup_inv in H as [[_ H] | H]; [exact H|].
  now apply Hk.
Qed.

(** X26.  After [saveVectorChunks], each of the chunks (their ids being
    distinct) is among those [getVectorChunksByCharacter] returns for its
    character, and a chunk that was returned before is still returned
    unless one of the new chunks has its id.  Records stay filed under
    their own ids. *)
Theorem saveVectorChunks_then_get (chunks : list (Vector.VectorChunk number))
    (store : Vector.vectorStore number) :
  NoDup (Vector.id <$> chunks) -> Vector.keyed store ->
  (forall chunk, chunk ∈ chunks ->
     chunk ∈ Vector.getVectorChunksByCharacter (Vector.characterId chunk)
               (Vector.saveVectorChunks chunks store))
  /\ (forall character chunk,
        chunk ∈ Vector.getVectorChunksByCharacter character store ->
        Vector.id chunk ∉ Vector.id <$> chunks ->
        chunk ∈ Vector.getVectorChunksByCharacter character
                  (Vector.saveVectorChunks chunks store))
  /\ (forall character chunk,
        chunk ∈ Vector.getVectorChunksByCharacter character
                  (Vector.saveVectorChunks chunks store) ->
        chunk ∈ chunks \/ chunk ∈ Vector.getVectorChunksByCharacter character store)
  /\ Vector.keyed (Vector.saveVectorChunks chunks store).
Proof.
  intros Hnd Hk. split; [|split; [|split]].
  - intros chunk Hin. apply elem_of_getVectorChunksByCharacter. split; [|reflexivity].
    exists (Vector.id chunk). now apply saveVectorChunks_lookup_saved.
  - intros character chunk Hin Hid.
    apply elem_of_getVectorChunksByCharacter in Hin as [[key Hkey] Hc].
    apply elem_of_getVectorChunksByCharacter. split; [|exact Hc].
    exists key. rewrite saveVectorChunks_lookup_other; [exact Hkey|].
    now rewrite <- (Hk key chunk Hkey).
  - intros character chunk Hin.
    apply elem_of_getVectorChunksByCharacter in Hin as [[key Hkey] Hc].
    apply saveVectorChunks_lookup_inv in Hkey as [[Hin _] | Hkey]; [now left|].
    right. apply elem_of_getVectorChunksByCharacter. eauto.
  - now apply keyed_saveVectorChunks.
Qed.

(** X27.  After [deleteVectorChunksBySource], the chunks returned for a
    character are those that were returned before and belong to another
    source: none of the deleted source is left, and no other is lost. *)
Theorem deleteVectorChunksBySource_then_get (source character : jsstring)
    (store : Vector.vectorStore number) (chunk : Vector.VectorChunk number) :
  chunk ∈ Vector.getVectorChunksByCharacter character
            (Vector.deleteVectorChunksBySource source store)
  <-> chunk ∈ Vector.getVectorChunksByCharacter character store
      /\ Vector.sourceId chunk <> source.
Proof.
  rewrite !elem_of_getVectorChunksByCharacter. unfold Vector.deleteVectorChunksBySource.
  split.
  - intros [[key Hkey] Hc]. apply map_lookup_filter_Some in Hkey as [Hkey Hs]. eauto.
  - intros [[[key Hkey] Hc] Hs]. split; [|exact Hc]. exists key.
    now apply map_lookup_filter_Some.
Qed.

(** X28.  Indexing a source and deleting it again restores the store:
    when the chunks all belong to [source], have ids the store does not
    use, and the store had no chunk of that source,
    [deleteVectorChunksBySource] after [saveVectorChunks] gives the store
    back. *)
Theorem deleteVectorChunksBySource_saveVectorChunks (source : jsstring)
    (chunks : list (Vector.VectorChunk number)) (store : Vector.vectorStore number) :
  Forall (fun chunk => Vector.sourceId chunk = source) chunks ->
  Forall (fun chunk => store !! Vector.id chunk = None) chunks ->
  map_Forall (fun _ chunk => Vector.sourceId chunk <> source) store ->
  Vector.deleteVectorChunksBySource source (Vector.saveVectorChunks chunks store) = store.
Proof.
  intros Hsrc Hfresh Hold. apply map_eq. intros key.
  unfold Vector.deleteVectorChunksBySource.
  destruct (store !! key) as [c|] eqn:E.
  - apply map_lookup_filter_Some. split; [|now apply (Hold key)].
    rewrite saveVectorChunks_lookup_other; [exact E|].
    intros Hin. apply list_elem_of_fmap in Hin as (c' & -> & Hin).
    rewrite Forall_forall in Hfresh. specialize (Hfresh c' Hin). congruence.
  - apply map_lookup_filter_None. right. intros c Hc Hs.
    apply saveVectorChunks_lookup_inv in Hc as [[Hin _] | Hc]; [|congruence].
    rewrite Forall_forall in Hsrc. now apply Hs, Hsrc.
Qed.

End VectorStore.

(** ** The further properties on concrete states *)

(** X2 on the document [{}] and the password "oldpass". *)
Lemma legacySimpleXOR_involution_witness :
  legacySimpleXOR (legacySimpleXOR (str "{}") (str "oldpass")) (str "oldpass") = str "{}".
Proof.
  apply (legacySimpleXOR_involution (str "{}") (str "oldpass")); apply str_code_units.
Defined.

(** X3 on the same text and password. *)
Lemma legacyDecrypt_legacyBlobOf_witness :
  legacyDecrypt (legacyBlobOf (str "{}") (str "oldpass")) (str "oldpass") = Ok (str "{}").
Proof.
  apply (legacyDecrypt_legacyBlobOf (str "{}") (str "oldpass")).
  - discriminate.
  - apply str_code_units.
  - apply str_code_units.
  - vm_compute. repeat split; discriminate.
Defined.

(** X4 on the records of the legacy release. *)
Lemma verifyMasterPassword_legacy_path_witness :
  masterCryptoKey (snd (verifyMasterPassword (str "oldpass") legacyLocked)) = None
  /\ (fst (verifyMasterPassword (str "oldpass") legacyLocked) = Ok true
      <-> legacyDecrypt legacyVerifier (str "oldpass") = Ok (str "password_is_correct")).
Proof.
  destruct (verifyMasterPassword_legacy_path (P := demo) (str "oldpass") legacyLocked
              (VString legacyVerifier))
    as (_ & Hkey & _ & Hres); [vm_compute; reflexivity .. |].
  split; [exact Hkey | exact Hres].
Defined.

(** X5: the legacy login with "oldpass". *)
Lemma verifyMasterPassword_legacy_accepts_witness :
  fst (verifyMasterPassword (str "oldpass") legacyLocked) = Ok true
  /\ sessionState (snd (verifyMasterPassword (str "oldpass") legacyLocked)) = LegacyVerified.
Proof.
  destruct (verifyMasterPassword_legacy_accepts (P := demo) (str "oldpass") legacyLocked)
    as [Hrun Hstate].
  - discriminate.
  - apply str_code_units.
  - vm_compute. repeat split; discriminate.
  - vm_compute; reflexivity.
  - vm_compute; reflexivity.
  - reflexivity.
  - split; [now rewrite Hrun | exact Hstate].
Defined.

(** X6 on a new installation. *)
Lemma verifyMasterPassword_after_setMasterPassword_witness :
  fst (verifyMasterPassword (str "hunter22")
         (restart (snd (setMasterPassword (str "hunter22") freshWorld)))) = Ok true.
Proof.
  apply (verifyMasterPassword_after_setMasterPassword (P := demo) (str "hunter22") freshWorld
           demo_gcm_correct demo_gcm_octets).
  reflexivity.
Defined.


(** X8 before and after the first [setMasterPassword]. *)
Lemma hasMasterPassword_setMasterPassword_witness :
  hasMasterPassword freshWorld = (Ok false, freshWorld)
  /\ fst (hasMasterPassword (snd (setMasterPassword (str "hunter22") freshWorld))) = Ok true.
Proof.
  destruct (hasMasterPassword_setMasterPassword (P := demo) (str "hunter22") freshWorld)
    as [Hbefore Hafter].
  split; [apply Hbefore; reflexivity | apply Hafter; reflexivity].
Defined.

(** X9 on a new installation. *)
Lemma hasMasterPassword_false_no_login_witness :
  fst (verifyMasterPassword (str "hunter22") (snd (hasMasterPassword freshWorld))) = Ok false.
Proof.
  apply (hasMasterPassword_false_no_login (P := demo) freshWorld (str "hunter22")).
  - reflexivity.
  - vm_compute; reflexivity.
Defined.

(** X11 on the document [null]. *)
Lemma loadData_after_saveData_witness :
  loadData (snd (saveData JNull (unlockedWorld [])))
  = (Ok JNull, snd (saveData JNull (unlockedWorld []))).
Proof.
  apply (loadData_after_saveData (P := demo) [zombieApocChar; amyChar] JNull
           (unlockedWorld []) "k"%char demo_gcm_correct demo_gcm_octets).
  - reflexivity.
  - reflexivity.
  - reflexivity.
  - exact (str_well_formed "null").
  - exact (str_no_bom "null").
  - vm_compute; reflexivity.
Defined.

(** X12 with a store that rejects the next put. *)
Lemma saveData_rejected_write_witness :
  fst (saveData JNull (unlockedWorld [true])) = Throw DBRequestError
  /\ appDataStore (snd (saveData JNull (unlockedWorld [true]))) = ∅.
Proof.
  destruct (saveData_rejected_write (P := demo) JNull (unlockedWorld [true]) "k"%char [])
    as (Hres & Hstore & _); [reflexivity .. |].
  split; [exact Hres | exact Hstore].
Defined.

(** X13 in a locked session with no data record. *)
Lemma loadData_read_only_witness :
  snd (loadData modernLocked) = modernLocked.
Proof.
  destruct (loadData_read_only (P := demo) [zombieApocChar; amyChar] modernLocked)
    as [_ H]; [vm_compute; discriminate|].
  apply H. reflexivity.
Defined.



(** X16 on the legacy records of "oldpass". *)
Lemma loadData_migration_succeeds_witness :
  fst (loadData (legacyVerified [])) = Ok (JObject [])
  /\ sessionState (snd (loadData (legacyVerified []))) = Unlocked.
Proof.
  destruct (loadData_migration_succeeds (P := demo) [zombieApocChar; amyChar]
              (legacyVerified []) (str "oldpass") (str "{}") (JObject []))
    as (Hres & Hstate & _); [vm_compute; reflexivity .. |].
  split; [exact Hres | exact Hstate].
Defined.

(** X17 on the same records. *)
Lemma login_after_migration_witness :
  fst (verifyMasterPassword (str "oldpass") (restart (snd (loadData (legacyVerified [])))))
  = Ok true
  /\ fst (loadData
            (snd (verifyMasterPassword (str "oldpass")
                    (restart (snd (loadData (legacyVerified [])))))))
     = Ok (JObject []).
Proof.
  apply (login_after_migration (P := demo) [zombieApocChar; amyChar]
           (legacyVerified []) (str "oldpass") (str "{}") (JObject [])
           demo_gcm_correct demo_gcm_octets).
  - reflexivity.
  - reflexivity.
  - reflexivity.
  - reflexivity.
  - reflexivity.
  - vm_compute; reflexivity.
  - vm_compute; reflexivity.
  - vm_compute; reflexivity.
  - reflexivity.
  - exact (str_well_formed "{}").
  - exact (str_no_bom "{}").
  - vm_compute; reflexivity.
Defined.

(** X18 on a new installation. *)
Lemma saved_data_survives_restart_witness :
  fst (loadData
         (snd (verifyMasterPassword (str "hunter22")
                 (restart (snd (saveData JNull
                                  (snd (setMasterPassword (str "hunter22") freshWorld))))))))
  = Ok JNull.
Proof.
  apply (saved_data_survives_restart (P := demo) [zombieApocChar; amyChar] (str "hunter22")
           JNull freshWorld demo_gcm_correct demo_gcm_octets).
  - reflexivity.
  - reflexivity.
  - exact (str_well_formed "null").
  - exact (str_no_bom "null").
  - vm_compute; reflexivity.
Defined.

(** X19 with the salt accepted and the verifier rejected. *)
Lemma setMasterPassword_rejected_write_witness :
  fst (setMasterPassword (str "hunter22")
         (MkWorld (P := demo) None None modernStore ∅ [false; true] [] 100))
  = Throw DBRequestError
  /\ appDataStore
       (snd (setMasterPassword (str "hunter22")
               (MkWorld (P := demo) None None modernStore ∅ [false; true] [] 100)))
     = <[STORAGE_KEY_SALT := VBytes (random_bytes (P := demo) 100 16)]> modernStore.
Proof.
  destruct (setMasterPassword_rejected_write (P := demo) (str "hunter22")
              (MkWorld (P := demo) None None modernStore ∅ [false; true] [] 100) [])
    as (_ & H & _).
  apply H. reflexivity.
Defined.

(** X22 on ten code units, chunks of four with an overlap of one. *)
Lemma chunkText_covers_text_witness :
  exists chunks,
    chunkText (str "abcdefghij") 4 1 = Some chunks
    /\ join_chunks 1 chunks = str "abcdefghij".
Proof.
  destruct (chunkText_covers_text (str "abcdefghij") 4 1) as (chunks & Hrun & _ & Hjoin);
    [lia|].
  exists chunks. split; [exact Hrun | exact Hjoin].
Defined.

(** X23: the second of the three chunks of that text. *)
Lemma chunkText_chunks_witness :
  exists chunks,
    chunkText (str "abcdefghij") 4 1 = Some chunks
    /\ (chunks !! 1%nat = Some (str "defg") ->
        str "defg" = slice (str "abcdefghij") 3 7
        /\ 1 <= Z.of_nat (length (str "defg")) <= 4).
Proof.
  destruct (chunkText_chunks (str "abcdefghij") 4 1) as (chunks & Hrun & H); [lia|].
  exists chunks. split; [exact Hrun|]. intros Hk.
  destruct (H 1%nat (str "defg") Hk) as (Hc & Hlen & _).
  split; [exact Hc | exact Hlen].
Defined.


(** X20 with a base64 salt left in localStorage. *)
Lemma verifyMasterPassword_relocated_salt_witness :
  fst (verifyMasterPassword (str "hunter22")
         (MkWorld (P := demo) None None modernStore
            (<[STORAGE_KEY_SALT := str "c2FsdA=="]> ∅) [] [] 100))
  = Ok false.
Proof.
  apply (verifyMasterPassword_relocated_salt (P := demo) (str "hunter22")
           (MkWorld (P := demo) None None modernStore
              (<[STORAGE_KEY_SALT := str "c2FsdA=="]> ∅) [] [] 100)
           99 (str "2FsdA==")); reflexivity.
Defined.

(** X21 with a data record that is not base64. *)
Lemma loadData_migration_unreadable_witness :
  fst (loadData
         (MkWorld (P := demo) None (Some (str "oldpass"))
            (<[STORAGE_KEY_DATA := VString (str "!")]> ∅) ∅ [] [] 0))
  = Throw MigrationFailed
  /\ sessionState
       (snd (loadData
               (MkWorld (P := demo) None (Some (str "oldpass"))
                  (<[STORAGE_KEY_DATA := VString (str "!")]> ∅) ∅ [] [] 0)))
     = LegacyVerified.
Proof.
  destruct (loadData_migration_unreadable (P := demo) [zombieApocChar; amyChar]
              (MkWorld (P := demo) None (Some (str "oldpass"))
                 (<[STORAGE_KEY_DATA := VString (str "!")]> ∅) ∅ [] [] 0)
              (str "oldpass"))
    as [Hrun Hstate].
  - reflexivity.
  - reflexivity.
  - vm_compute; reflexivity.
  - left. exists InvalidCharacterError. vm_compute; reflexivity.
  - split; [unfold loadData; now rewrite Hrun | exact Hstate].
Defined.

(** X26 on two chunks and an empty store. *)
Lemma saveVectorChunks_then_get_witness :
  demoChunk "chunk-2" "src-1"
    ∈ Vector.getVectorChunksByCharacter (str "amy")
        (Vector.saveVectorChunks [demoChunk "chunk-1" "src-1"; demoChunk "chunk-2" "src-1"] ∅).
Proof.
  destruct (saveVectorChunks_then_get
              [demoChunk "chunk-1" "src-1"; demoChunk "chunk-2" "src-1"] ∅) as [H _].
  - apply (bool_decide_unpack _). vm_compute. exact I.
  - apply map_Forall_empty.
  - apply (H (demoChunk "chunk-2" "src-1")). apply elem_of_cons. right. apply elem_of_cons. now left.
Defined.

(** X27: a chunk of the deleted source is not returned. *)
Lemma deleteVectorChunksBySource_then_get_witness :
  demoChunk "chunk-1" "src-1"
    ∉ Vector.getVectorChunksByCharacter (str "amy")
        (Vector.deleteVectorChunksBySource (str "src-1")
           (Vector.saveVectorChunks [demoChunk "chunk-1" "src-1"] ∅)).
Proof.
  intros H.
  apply (deleteVectorChunksBySource_then_get (str "src-1") (str "amy")) in H as [_ H].
  now apply H.
Defined.

(** X28 with a store that holds a chunk of another source. *)
Lemma deleteVectorChunksBySource_saveVectorChunks_witness :
  Vector.deleteVectorChunksBySource (str "src-1")
    (Vector.saveVectorChunks [demoChunk "chunk-1" "src-1"; demoChunk "chunk-2" "src-1"]
       (<[str "chunk-0" := demoChunk "chunk-0" "src-0"]> ∅))
  = <[str "chunk-0" := demoChunk "chunk-0" "src-0"]> ∅.
Proof.
  apply (deleteVectorChunksBySource_saveVectorChunks (str "src-1")).
  - repeat constructor.
  - repeat constructor.
  - apply map_Forall_insert_2; [discriminate | apply map_Forall_empty].
Defined.
